(** * spanish_translator.py: a resilient batch-translation pipeline

    Shallow embedding of [src/spanish_translator.py] and the properties
    of its truncation rule, its retry/backoff/fallback policy and its
    checkpointed row loop.

    Conventions of the embedding.
    - A Python [str] is a [string]; one [ascii] stands for one character
      of the text.  Only the space character is ever inspected.
    - A Python [int] is a [Z].
    - Side effects (provider calls, log lines, sleeps, CSV writes) are
      recorded, in order, in the event trace of an explicit world that
      every effectful function threads; an exception is a result of its
      own, so that "does not raise" is a statement and not a typing fact.
    - Console output and the progress bar are left out: nothing below
      depends on them. *)

From Stdlib Require Import ZArith List String Ascii Bool Lia DecimalString.
Import ListNotations.

Open Scope string_scope.
Open Scope Z_scope.

(** ** Python strings *)

Module PyStr.

(** [len(s)] *)
Definition len (s : string) : Z := Z.of_nat (String.length s).

(** The first [n] characters of [s]. *)
Fixpoint take (n : nat) (s : string) : string :=
  match n, s with
  | O, _ => EmptyString
  | S _, EmptyString => EmptyString
  | S n', String c s' => String c (take n' s')
  end.

(** [s[:n]]: a negative bound counts from the end. *)
Definition slice_to (s : string) (n : Z) : string :=
  if 0 <=? n then take (Z.to_nat n) s
  else take (String.length s - Z.to_nat (- n)) s.

(** Does [c] occur in [s]? *)
Fixpoint has_char (c : ascii) (s : string) : bool :=
  match s with
  | EmptyString => false
  | String a s' => Ascii.eqb a c || has_char c s'
  end.

(** Split at the last occurrence of [sep], if there is one. *)
Fixpoint rpartition (sep : ascii) (s : string) : option (string * string) :=
  match s with
  | EmptyString => None
  | String a s' =>
      match rpartition sep s' with
      | Some (l, r) => Some (String a l, r)
      | None => if Ascii.eqb a sep then Some (EmptyString, s') else None
      end
  end.

(** [s.rsplit(sep, 1)] for a one-character separator. *)
Definition rsplit1 (s : string) (sep : ascii) : list string :=
  match rpartition sep s with
  | Some (l, r) => [l; r]
  | None => [s]
  end.

(** [s.startswith(p)] *)
Definition startswith (s p : string) : bool := String.prefix p s.

(** [str(n)] for an integer. *)
Definition of_int (n : Z) : string := NilZero.string_of_int (Z.to_int n).

End PyStr.

Import PyStr.

Definition space : ascii := " "%char.

(** ** TextNormalizer: [truncate_text] (lines 62-65) *)

Definition truncate_text (text : string) (max_length : Z) : string :=
  if len text <=? max_length then text
  else nth 0 (rsplit1 (slice_to text max_length) space) "" ++ "...".

(** [s.rsplit(' ', 1)[0]], the part the ellipsis is appended to. *)
Definition rsplit_head (s : string) : string := nth 0 (rsplit1 s space) "".


(** ** Values, exceptions and the world *)

(** A cell of the table: a text, or one of the values [pd.isna] accepts
    ([NaN] is what [read_csv] produces for a missing field, [pd.NA] is
    what line 28 stores). *)
Inductive cell : Type :=
| Str (s : string)
| NaN
| PdNA
| PyNone.

(** [pd.isna(c)] *)
Definition isna (c : cell) : bool :=
  match c with
  | Str _ => false
  | _ => true
  end.

Definition notna (c : cell) : bool := negb (isna c).

(** [str(c)] *)
Definition py_str (c : cell) : string :=
  match c with
  | Str s => s
  | NaN => "nan"
  | PdNA => "<NA>"
  | PyNone => "None"
  end.

(** Exceptions are instances of [Exception]; [RequestException] stands
    for [requests.exceptions.RequestException] and its subclasses. *)
Inductive exn_class : Type :=
| RequestException
| NameError
| KeyError
| FileNotFoundError
| Exception.

Record exn : Type := Exn { exn_type : exn_class; exn_str : string }.

Definition is_request_exception (e : exn) : bool :=
  match exn_type e with
  | RequestException => true
  | _ => false
  end.

Inductive result (A : Type) : Type :=
| Returns (a : A)
| Raises (e : exn).

Arguments Returns {A} a.
Arguments Raises {A} e.

(** The two translator objects of lines 32-33. *)
Inductive translator : Type :=
| google_translator
| mymemory_translator.

Inductive level : Type := INFO | WARNING | ERROR.

(** The three files of lines 14-16. *)
Inductive path : Type :=
| file_path
| output_file_path
| checkpoint_file.

Definition path_name (p : path) : string :=
  match p with
  | file_path => "spanish_news_articles_with_ilr7192024.csv"
  | output_file_path => "translation_spanish_news07192024.csv"
  | checkpoint_file => "spanish_translation_checkpoint.csv"
  end.

Definition path_eqb (p q : path) : bool :=
  match p, q with
  | file_path, file_path => true
  | output_file_path, output_file_path => true
  | checkpoint_file, checkpoint_file => true
  | _, _ => false
  end.

Record Row : Type := { summary : cell; translated_summary : cell }.

(** A table as [read_csv] returns it: the ['translated_summary'] column
    may be missing from the file.  A CSV file is represented by the
    table pandas parses from it. *)
Inductive DataFrame : Type :=
| SummaryOnly (summaries : list cell)
| WithTranslation (rows : list Row).

Inductive event : Type :=
| Translate (t : translator) (text : string)
| Log (l : level) (msg : string)
| Sleep (seconds : Z)
| ToCsv (p : path) (df : list Row).

Record world : Type := {
  trace : list event;
  files : path -> option DataFrame
}.

Definition emit (e : event) (w : world) : world :=
  {| trace := trace w ++ [e]; files := files w |}.

Definition write_file (p : path) (d : DataFrame) (w : world) : world :=
  {| trace := trace w;
     files := fun q => if path_eqb q p then Some d else files w q |}.

(** A translation provider is an opaque remote service: what it answers
    may depend on everything that happened before the call. *)
Definition provider : Type := list event -> string -> result string.

(** The module-level names the functions look up when they run.  The
    script binds the two translators at lines 32-33; its import block
    (lines 1-7) does not bind [requests]. *)
Record globals : Type := {
  google : provider;
  mymemory : provider;
  requests_bound : bool
}.

Definition module_globals (g m : provider) : globals :=
  {| google := g; mymemory := m; requests_bound := false |}.

(** ** The effect monad *)

Definition M (A : Type) : Type := world -> result A * world.

Definition ret {A} (a : A) : M A := fun w => (Returns a, w).

Definition raise {A} (e : exn) : M A := fun w => (Raises e, w).

Definition bind {A B} (m : M A) (k : A -> M B) : M B :=
  fun w =>
    match m w with
    | (Returns a, w') => k a w'
    | (Raises e, w') => (Raises e, w')
    end.

(** [try: body except Exception as e: handler e] *)
Definition try_except {A} (body : M A) (handler : exn -> M A) : M A :=
  fun w =>
    match body w with
    | (Returns a, w') => (Returns a, w')
    | (Raises e, w') => handler e w'
    end.

Notation "x <- m ;; k" := (bind m (fun x => k))
  (at level 61, m at next level, right associativity).
Notation "m ;; k" := (bind m (fun _ => k))
  (at level 61, right associativity).

Definition log (l : level) (msg : string) : M unit :=
  fun w => (Returns tt, emit (Log l msg) w).

Definition sleep (seconds : Z) : M unit :=
  fun w => (Returns tt, emit (Sleep seconds) w).

Definition path_exists (p : path) : M bool :=
  fun w => (Returns (match files w p with Some _ => true | None => false end), w).

Definition read_csv (p : path) : M DataFrame :=
  fun w =>
    match files w p with
    | Some d => (Returns d, w)
    | None =>
        (Raises (Exn FileNotFoundError
                   ("[Errno 2] No such file or directory: '" ++ path_name p ++ "'")), w)
    end.

(** [df.to_csv(p, index=False)]: afterwards the file holds the table
    that was written.  What pandas makes of the cells when the file is
    read again is [reload] below. *)
Definition to_csv (df : list Row) (p : path) : M unit :=
  fun w => (Returns tt, emit (ToCsv p df) (write_file p (WithTranslation df) w)).

(** [range(n)] *)
Definition range (n : Z) : list Z := map Z.of_nat (seq 0 (Z.to_nat n)).

(** [df.iterrows()]: the rows with their 0-based index labels. *)
Definition iterrows (df : list Row) : list (Z * Row) :=
  combine (range (Z.of_nat (List.length df))) df.

Fixpoint set_nth (i : nat) (v : cell) (df : list Row) : list Row :=
  match df, i with
  | [], _ => []
  | r :: rest, O => {| summary := summary r; translated_summary := v |} :: rest
  | r :: rest, S i' => r :: set_nth i' v rest
  end.

(** [df.at[index, 'translated_summary'] = v] *)
Definition set_translated_summary (df : list Row) (index : Z) (v : cell) : list Row :=
  if index <? 0 then df else set_nth (Z.to_nat index) v df.

Section Pipeline.

Variable G : globals.

Definition provider_of (t : translator) : provider :=
  match t with
  | google_translator => google G
  | mymemory_translator => mymemory G
  end.

(** [translator.translate(text)] *)
Definition translate (t : translator) (text : string) : M string :=
  fun w => (provider_of t (trace w) text, emit (Translate t text) w).

(** *** RetryingTranslator: [translate_with_backoff] (lines 35-44) *)

(** The [for] loop of lines 36-43 over the remaining attempts; [Some r]
    is a [return r] from inside the loop, [None] is the loop running
    out. *)
Fixpoint backoff_loop (text : string) (t : translator) (max_retries : Z)
    (attempts : list Z) : M (option string) :=
  match attempts with
  | [] => ret None
  | attempt :: rest =>
      step <- try_except
                (r <- translate t text ;; ret (Some r))
                (fun e =>
                   log ERROR ("Translation attempt " ++ of_int (attempt + 1)
                              ++ " failed: " ++ exn_str e) ;;
                   if attempt =? max_retries - 1
                   then ret (Some ("Translation failed: " ++ exn_str e))
                   else sleep (2 ^ attempt) ;; ret None) ;;
      match step with
      | Some r => ret (Some r)
      | None => backoff_loop text t max_retries rest
      end
  end.

Definition translate_with_backoff (text : string) (t : translator)
    (max_retries : Z) : M string :=
  r <- backoff_loop text t max_retries (range max_retries) ;;
  match r with
  | Some s => ret s
  | None => ret "Translation failed after maximum retries"
  end.

(** *** FallbackTranslator: [translate_text] (lines 46-60) *)

(** Lines 50-54, the body of the [try]. *)
Definition translate_text_body (text : string) (index : Z) : M string :=
  result <- translate_with_backoff text google_translator 5 ;;
  if startswith result "Translation failed"
  then
    log WARNING ("Google Translate failed for index " ++ of_int index
                 ++ ". Trying MyMemory Translator.") ;;
    translate_with_backoff text mymemory_translator 5
  else ret result.

(** Lines 55-60, the [except] clauses.  The class expression of the
    first clause is evaluated before anything is matched. *)
Definition translate_text_except (index : Z) (e : exn) : M string :=
  if requests_bound G then
    if is_request_exception e then
      log ERROR ("Network error at index " ++ of_int index ++ ": " ++ exn_str e) ;;
      ret ("Network error: " ++ exn_str e)
    else
      log ERROR ("Unexpected error at index " ++ of_int index ++ ": " ++ exn_str e) ;;
      ret ("Unexpected error: " ++ exn_str e)
  else raise (Exn NameError "name 'requests' is not defined").

(** The [try] statement of lines 49-60 around an arbitrary body. *)
Definition translate_text_try (body : M string) (index : Z) : M string :=
  try_except body (translate_text_except index).

Definition translate_text (text : cell) (index : Z) : M string :=
  match text with
  | Str s =>
      if (s =? "")%string then ret ""
      else translate_text_try (translate_text_body s index) index
  | _ => ret ""
  end.

(** *** BatchRunner: the row loop (lines 71-90) *)

(** One iteration of the loop; [df] is the live table, [row] the row
    [iterrows] yielded for [index]. *)
Definition process_row (index : Z) (row : Row) (df : list Row) : M (list Row) :=
  df' <- (if isna (translated_summary row) then
            let original_text := truncate_text (py_str (summary row)) 150 in
            translated_text <- translate_text (Str original_text) index ;;
            let df1 := set_translated_summary df index
                         (Str (truncate_text translated_text 150)) in
            (if index mod 10 =? 0 then
               to_csv df1 checkpoint_file ;;
               log INFO ("Checkpoint saved at row " ++ of_int index)
             else ret tt) ;;
            ret df1
          else ret df) ;;
  sleep 1 ;;
  ret df'.

Fixpoint process_rows (it : list (Z * Row)) (df : list Row) : M (list Row) :=
  match it with
  | [] => ret df
  | (index, row) :: rest =>
      df' <- process_row index row df ;;
      process_rows rest df'
  end.

(** *** CheckpointStore: loading (lines 19-29) *)

Definition load : M (list Row) :=
  found <- path_exists checkpoint_file ;;
  df <- (if found : bool then
           df <- read_csv checkpoint_file ;;
           log INFO ("Resuming from checkpoint: " ++ path_name checkpoint_file) ;;
           ret df
         else
           df <- read_csv file_path ;;
           log INFO ("Starting new translation job: " ++ path_name file_path) ;;
           ret df) ;;
  match df with
  | WithTranslation rows => ret rows
  | SummaryOnly summaries =>
      log INFO "Created 'translated_summary' column" ;;
      ret (map (fun c => {| summary := c; translated_summary := PdNA |}) summaries)
  end.

(** *** Statistics (lines 99-101) *)

Record RunStatistics : Type := {
  total_articles : Z;
  successful_translations : Z;
  failed_translations : Z
}.

Definition count (p : cell -> bool) (df : list Row) : Z :=
  Z.of_nat (List.length (filter (fun r => p (translated_summary r)) df)).

Definition failure_prefixes : list string :=
  ["Translation failed"; "Network error"; "Unexpected error"].

(** [.str.startswith((...), na=False)] *)
Definition is_failure (c : cell) : bool :=
  match c with
  | Str s => existsb (startswith s) failure_prefixes
  | _ => false
  end.

Definition statistics (df : list Row) : RunStatistics :=
  {| total_articles := Z.of_nat (List.length df);
     successful_translations := count notna df;
     failed_translations := count is_failure df |}.

(** *** The script from loading to the statistics

    Lines 19-29 and 68-109, run with both translator objects at hand;
    their construction at lines 32-33 is not part of [main]. *)

Definition main : M (list Row * RunStatistics) :=
  df <- load ;;
  df <- process_rows (iterrows df) df ;;
  to_csv df output_file_path ;;
  log INFO ("Translation job completed. Results saved to "
            ++ path_name output_file_path) ;;
  let st := statistics df in
  log INFO ("Translation completed. Total: " ++ of_int (total_articles st)
            ++ ", Successful: " ++ of_int (successful_translations st)
            ++ ", Failed: " ++ of_int (failed_translations st)) ;;
  ret (df, st).

End Pipeline.

(** The column the claims speak about. *)
Definition translated_column (df : list Row) : list cell :=
  map translated_summary df.

(** Events the run added to the trace. *)
Definition translate_calls (tr : list event) : list (translator * string) :=
  flat_map (fun e => match e with Translate t s => [(t, s)] | _ => [] end) tr.

Definition sleeps (tr : list event) : list Z :=
  flat_map (fun e => match e with Sleep n => [n] | _ => [] end) tr.

Definition checkpoints (tr : list event) : list (list Row) :=
  flat_map (fun e => match e with ToCsv checkpoint_file d => [d] | _ => [] end) tr.

(** ** Vocabulary of the statements *)

(** [added w l w']: going from [w] to [w'] appended exactly the events
    [l] to the trace. *)
Definition added (w : world) (l : list event) (w' : world) : Prop :=
  trace w' = (trace w ++ l)%list.

(** The log entry of line 40 and the marker of line 42. *)
Definition attempt_log (attempt : Z) (e : exn) : event :=
  Log ERROR ("Translation attempt " ++ of_int (attempt + 1) ++ " failed: " ++ exn_str e).

Definition failure_marker (e : exn) : string := "Translation failed: " ++ exn_str e.

(** How a return value of the retry loop came about: the provider call
    made last succeeded (line 38), or the attempt numbered
    [max_retries - 1] failed (line 42), or the loop ran out. *)
Inductive backoff_outcome (G : globals) (text : string) (t : translator)
    (max_retries : Z) (w' : world) : option string -> Prop :=
| Translated (tr : list event) (s : string) :
    trace w' = (tr ++ [Translate t text])%list ->
    provider_of G t tr text = Returns s ->
    backoff_outcome G text t max_retries w' (Some s)
| Exhausted (tr : list event) (e : exn) :
    trace w' = (tr ++ [Translate t text; attempt_log (max_retries - 1) e])%list ->
    provider_of G t tr text = Raises e ->
    backoff_outcome G text t max_retries w' (Some (failure_marker e))
| RanOut : backoff_outcome G text t max_retries w' None.

(** The events one run of the retry loop on [t] and [text] can add. *)
Definition retry_event (t : translator) (text : string) (e : event) : Prop :=
  match e with
  | Translate t' s => t' = t /\ s = text
  | Log ERROR _ => True
  | Sleep _ => True
  | _ => False
  end.

(** The events translating [text] can add: provider calls on [text],
    error and warning entries, sleeps. *)
Definition translation_event (text : string) (e : event) : Prop :=
  match e with
  | Translate _ s => s = text
  | Log ERROR _ => True
  | Log WARNING _ => True
  | Sleep _ => True
  | _ => False
  end.

(** The text sent to the providers for a row (line 73). *)
Definition original_text (row : Row) : string :=
  truncate_text (py_str (summary row)) 150.

Definition checkpoint_log (index : Z) : event :=
  Log INFO ("Checkpoint saved at row " ++ of_int index).

(** What one iteration of the row loop does to the table and which
    events it adds: a row that already has a value is skipped; a pending
    row is translated, stored, and saved when its index is a multiple of
    10. *)
Inductive row_result (index : Z) (row : Row) (df : list Row) :
    list Row -> list event -> Prop :=
| row_skipped :
    isna (translated_summary row) = false ->
    row_result index row df df [Sleep 1]
| row_processed (s : string) (l : list event) :
    isna (translated_summary row) = true ->
    Forall (translation_event (original_text row)) l ->
    row_result index row df
      (set_translated_summary df index (Str (truncate_text s 150)))
      (l ++ (if index mod 10 =? 0
             then [ToCsv checkpoint_file
                     (set_translated_summary df index (Str (truncate_text s 150)));
                   checkpoint_log index]
             else [])
         ++ [Sleep 1])%list.

Inductive rows_result : list (Z * Row) -> list Row -> list Row -> list event -> Prop :=
| rows_done (df : list Row) : rows_result [] df df []
| rows_step (index : Z) (row : Row) (rest : list (Z * Row))
    (df df1 df' : list Row) (l1 l : list event) :
    row_result index row df df1 l1 ->
    rows_result rest df1 df' l ->
    rows_result ((index, row) :: rest) df df' (l1 ++ l)%list.

(** The rows of an iteration that are pending, and those of them whose
    index triggers a checkpoint. *)
Definition pending (ir : Z * Row) : bool := isna (translated_summary (snd ir)).

Definition triggers_checkpoint (ir : Z * Row) : bool :=
  pending ir && (fst ir mod 10 =? 0).

Definition info_logs (tr : list event) : list event :=
  filter (fun e => match e with Log INFO _ => true | _ => false end) tr.

(** Lines 27-29: the table the loop starts from. *)
Definition with_translation_column (d : DataFrame) : list Row :=
  match d with
  | WithTranslation rows => rows
  | SummaryOnly summaries =>
      map (fun c => {| summary := c; translated_summary := PdNA |}) summaries
  end.

(** A row before and after a run: the summary is kept, a value is
    present afterwards, and a row that had a value keeps it. *)
Definition row_after (r r' : Row) : Prop :=
  summary r' = summary r
  /\ isna (translated_summary r') = false
  /\ (isna (translated_summary r) = false -> r' = r).

(** *** A checkpoint read again

    [to_csv] and [read_csv] are called with their defaults (lines 20, 79
    and 95): a missing value is written as an empty field, a text as
    itself, and [read_csv] takes an empty field and each of pandas'
    default missing-value texts below for a missing value.  Columns are
    taken to hold text. *)
Definition na_values : list string :=
  [""; "#N/A"; "#N/A N/A"; "#NA"; "-1.#IND"; "-1.#QNAN"; "-NaN"; "-nan";
   "1.#IND"; "1.#QNAN"; "<NA>"; "N/A"; "NA"; "NULL"; "NaN"; "None"; "n/a";
   "nan"; "null"].

(** The field [to_csv] writes for a cell. *)
Definition csv_field (c : cell) : string :=
  match c with
  | Str s => s
  | _ => ""
  end.

(** The cell [read_csv] makes of a field. *)
Definition parse_field (s : string) : cell :=
  if existsb (String.eqb s) na_values then NaN else Str s.

Definition read_back (c : cell) : cell := parse_field (csv_field c).

Definition reload_row (r : Row) : Row :=
  {| summary := read_back (summary r);
     translated_summary := read_back (translated_summary r) |}.

(** The table [read_csv] returns from the file [to_csv] wrote for [df]. *)
Definition reload (df : list Row) : list Row := map reload_row df.

(** Seconds slept in all, and the files written, among some events. *)
Definition total_sleep (tr : list event) : Z := fold_right Z.add 0 (sleeps tr).

Definition csv_writes (tr : list event) : list path :=
  flat_map (fun e => match e with ToCsv p _ => [p] | _ => [] end) tr.

Definition translator_eqb (a b : translator) : bool :=
  match a, b with
  | google_translator, google_translator => true
  | mymemory_translator, mymemory_translator => true
  | _, _ => false
  end.

(** How many calls of [t] the trace [tr] holds. *)
Definition calls_to (t : translator) (tr : list event) : nat :=
  List.length (filter (fun c => translator_eqb (fst c) t) (translate_calls tr)).

(** The warning of line 52. *)
Definition fallback_warning (index : Z) : event :=
  Log WARNING ("Google Translate failed for index " ++ of_int index
               ++ ". Trying MyMemory Translator.").

(** Two outcomes that agree on the result and on the trace. *)
Definition same_effects {A : Type} (x y : result A * world) : Prop :=
  fst x = fst y /\ trace (snd x) = trace (snd y).

(** A computation that reads no file: run from two worlds with the same
    trace, it gives the same result and the same trace, whatever the
    files hold. *)
Definition file_blind {A : Type} (m : M A) : Prop :=
  forall w w2, trace w = trace w2 -> same_effects (m w) (m w2).

(** ** Test doubles *)

(** A stub that answers from a fixed table and raises [KeyError] on any
    other text, as a Python [dict] lookup does. *)
Fixpoint lookup (table : list (string * string)) (text : string) : result string :=
  match table with
  | [] => Raises (Exn KeyError ("'" ++ text ++ "'"))
  | (k, v) :: rest => if (k =? text)%string then Returns v else lookup rest text
  end.

Definition stub (table : list (string * string)) : provider :=
  fun _ text => lookup table text.

Definition always_fails (e : exn) : provider := fun _ _ => Raises e.

(** A provider that fails its first [k] calls and answers [s] from then
    on. *)
Definition flaky (t : translator) (k : nat) (e : exn) (s : string) : provider :=
  fun tr _ => if (calls_to t tr <? k)%nat then Raises e else Returns s.

(** A provider that answers every text, by putting [tag] in front. *)
Definition tagging (tag : string) : provider := fun _ text => Returns (tag ++ text).

(** A fresh table of [n] rows whose summaries are ["0"], ["1"], ... *)
Definition numbered_rows (n : Z) : list Row :=
  with_translation_column (SummaryOnly (map (fun i => Str (of_int i)) (range n))).

Definition empty_world (input : DataFrame) : world :=
  {| trace := [];
     files := fun p => match p with file_path => Some input | _ => None end |}.

Definition canonical_input : DataFrame :=
  SummaryOnly [Str "Hola mundo"; Str ""; NaN].

(** A world in which an earlier run left a checkpoint: two rows carry a
    value (one of them a failure marker), the third is pending. *)
Definition checkpointed_world : world :=
  {| trace := [];
     files := fun p =>
       match p with
       | checkpoint_file =>
           Some (WithTranslation
                   [{| summary := Str "Hola mundo"; translated_summary := Str "Hello world" |};
                    {| summary := Str "adios";
                       translated_summary := Str "Translation failed: down" |};
                    {| summary := Str "gracias"; translated_summary := NaN |}])
       | _ => None
       end |}.

(** The table of that checkpoint. *)
Definition checkpointed_rows : list Row :=
  [{| summary := Str "Hola mundo"; translated_summary := Str "Hello world" |};
   {| summary := Str "adios"; translated_summary := Str "Translation failed: down" |};
   {| summary := Str "gracias"; translated_summary := NaN |}].

(** A job of two rows, and the primary provider that translates them. *)
Definition two_rows : list Row :=
  with_translation_column (SummaryOnly [Str "N/D"; Str "Hola mundo"]).

Definition two_rows_stub : provider :=
  stub [("N/D", "N/A"); ("Hola mundo", "Hello world")].

(** * Properties *)

(** ** Strings *)

Section StringFacts.

Local Open Scope nat_scope.

Lemma length_append (a b : string) :
  String.length (a ++ b) = String.length a + String.length b.
Proof. induction a as [|c a IH]; simpl; [reflexivity | now rewrite IH]. Qed.

Lemma app_empty_r (a : string) : a ++ "" = a.
Proof. induction a as [|c a IH]; simpl; [reflexivity | now rewrite IH]. Qed.

Lemma length_take (n : nat) (s : string) :
  String.length (take n s) = Nat.min n (String.length s).
Proof.
  revert s; induction n as [|n IH]; intros [|c s]; simpl; try reflexivity.
  now rewrite IH.
Qed.

Lemma take_all (n : nat) (s : string) :
  String.length s <= n -> take n s = s.
Proof.
  revert s; induction n as [|n IH]; intros [|c s]; simpl; intros H;
    try reflexivity; try lia.
  f_equal; apply IH; lia.
Qed.

Lemma take_app (n : nat) (a b : string) :
  String.length a <= n ->
  take n (a ++ b) = a ++ take (n - String.length a) b.
Proof.
  revert n; induction a as [|c a IH]; intros n H; simpl in *.
  - now rewrite Nat.sub_0_r.
  - destruct n as [|n]; [lia|]. simpl. f_equal. apply IH. lia.
Qed.

Lemma has_char_app (c : ascii) (a b : string) :
  has_char c (a ++ b) = has_char c a || has_char c b.
Proof.
  induction a as [|x a IH]; simpl; [reflexivity|].
  now rewrite IH, orb_assoc.
Qed.

Lemma has_char_take (c : ascii) (n : nat) (s : string) :
  has_char c s = false -> has_char c (take n s) = false.
Proof.
  revert s; induction n as [|n IH]; intros [|x s]; simpl; try reflexivity.
  intros H. apply orb_false_iff in H as [H1 H2].
  now rewrite H1, (IH _ H2).
Qed.

Lemma rpartition_none (sep : ascii) (s : string) :
  rpartition sep s = None <-> has_char sep s = false.
Proof.
  induction s as [|a s IH]; simpl; [tauto|].
  destruct (rpartition sep s) as [[l r]|].
  - split; [discriminate|]. intros H.
    apply orb_false_iff in H as [_ H]. apply IH in H. discriminate.
  - destruct IH as [IH _]. rewrite (IH eq_refl), orb_false_r.
    destruct (Ascii.eqb a sep); split; congruence.
Qed.

Lemma rpartition_some (sep : ascii) (s l r : string) :
  rpartition sep s = Some (l, r) ->
  s = l ++ String sep r /\ has_char sep r = false.
Proof.
  revert l r; induction s as [|a s IH]; simpl; intros l r H; [discriminate|].
  destruct (rpartition sep s) as [[l' r']|] eqn:E.
  - inversion H; subst. destruct (IH _ _ eq_refl) as [-> Hr].
    split; [reflexivity | exact Hr].
  - destruct (Ascii.eqb_spec a sep) as [->|]; [|discriminate].
    inversion H; subst. split; [reflexivity|].
    now apply rpartition_none.
Qed.

Lemma rpartition_app (sep : ascii) (a b : string) :
  has_char sep b = false ->
  rpartition sep (a ++ b) =
  match rpartition sep a with
  | Some (l, r) => Some (l, r ++ b)
  | None => None
  end.
Proof.
  intros Hb. induction a as [|x a IH]; simpl.
  - now apply rpartition_none.
  - rewrite IH. destruct (rpartition sep a) as [[l r]|]; [reflexivity|].
    destruct (Ascii.eqb x sep); reflexivity.
Qed.

(** What [rsplit(' ', 1)[0]] is. *)

Lemma rsplit_head_no_space (s : string) :
  has_char space s = false -> rsplit_head s = s.
Proof.
  intros H. apply rpartition_none in H.
  unfold rsplit_head, rsplit1. now rewrite H.
Qed.

Lemma rsplit_head_space (s : string) :
  has_char space s = true ->
  exists tail, s = rsplit_head s ++ String space tail
               /\ has_char space tail = false.
Proof.
  intros H. unfold rsplit_head, rsplit1.
  destruct (rpartition space s) as [[l r]|] eqn:E.
  - exists r. simpl. now apply rpartition_some.
  - apply rpartition_none in E. congruence.
Qed.

Lemma rsplit_head_app (a b : string) :
  has_char space b = false ->
  rsplit_head (a ++ b) = if has_char space a then rsplit_head a else a ++ b.
Proof.
  intros Hb. unfold rsplit_head, rsplit1.
  rewrite (rpartition_app _ _ _ Hb).
  destruct (rpartition space a) as [[l r]|] eqn:E.
  - apply rpartition_some in E as [-> _].
    rewrite has_char_app. simpl.
    now rewrite orb_true_r.
  - apply rpartition_none in E. now rewrite E.
Qed.

Lemma length_rsplit_head_space (s : string) :
  has_char space s = true ->
  String.length (rsplit_head s) < String.length s.
Proof.
  intros H. destruct (rsplit_head_space _ H) as (tail & E & _).
  rewrite E at 2. rewrite length_append. simpl. lia.
Qed.

Lemma length_rsplit_head (s : string) :
  String.length (rsplit_head s) <= String.length s.
Proof.
  destruct (has_char space s) eqn:E.
  - apply Nat.lt_le_incl. now apply length_rsplit_head_space.
  - now rewrite rsplit_head_no_space.
Qed.

End StringFacts.

(** ** TextNormalizer *)

Lemma truncate_text_short (text : string) (n : Z) :
  len text <= n -> truncate_text text n = text.
Proof.
  intros H. unfold truncate_text.
  destruct (Z.leb_spec (len text) n); [reflexivity | lia].
Qed.

Lemma truncate_text_long (text : string) (n : Z) :
  n < len text ->
  truncate_text text n = rsplit_head (slice_to text n) ++ "...".
Proof.
  intros H. unfold truncate_text, rsplit_head.
  destruct (Z.leb_spec (len text) n); [lia | reflexivity].
Qed.

Lemma len_app (a b : string) : len (a ++ b) = len a + len b.
Proof. unfold len. rewrite length_append. lia. Qed.

Lemma len_slice_to (text : string) (n : Z) :
  0 <= n < len text -> len (slice_to text n) = n.
Proof.
  unfold len, slice_to. intros H.
  destruct (Z.leb_spec 0 n); [|lia].
  rewrite length_take. lia.
Qed.

Example truncate_short : truncate_text "Hola mundo" 150 = "Hola mundo".
Proof. reflexivity. Qed.

Example truncate_word_boundary :
  truncate_text "uno dos tres cuatro" 10 = "uno dos...".
Proof. reflexivity. Qed.

Example truncate_no_space : truncate_text "abcdefghij" 4 = "abcd...".
Proof. reflexivity. Qed.

Example truncate_negative : truncate_text "abc def" (-2) = "abc...".
Proof. reflexivity. Qed.

Lemma len_nonneg (s : string) : 0 <= len s.
Proof. unfold len. lia. Qed.

Lemma slice_to_prefix (a b : string) (n : Z) :
  len a <= n ->
  slice_to (a ++ b) n = a ++ slice_to b (n - len a).
Proof.
  intros H. pose proof (len_nonneg a) as Ha. unfold slice_to, len in *.
  destruct (Z.leb_spec 0 n); [|lia].
  destruct (Z.leb_spec 0 (n - Z.of_nat (String.length a))); [|lia].
  rewrite take_app by lia. do 2 f_equal. lia.
Qed.

Lemma has_space_slice_dots (k : Z) : has_char space (slice_to "..." k) = false.
Proof.
  unfold slice_to. destruct (0 <=? k); now apply has_char_take.
Qed.

(** A text longer than the bound [n >= 0]: the shape and the length of
    what [truncate_text] returns. *)
Lemma truncate_text_cut (text : string) (n : Z) :
  0 <= n -> n < len text ->
  let cut := slice_to text n in
  truncate_text text n = rsplit_head cut ++ "..."
  /\ len cut = n
  /\ len (truncate_text text n) <= n + 3
  /\ (has_char space cut = false ->
      rsplit_head cut = cut /\ len (truncate_text text n) = n + 3)
  /\ (has_char space cut = true ->
      exists tail,
        cut = rsplit_head cut ++ String space tail
        /\ has_char space tail = false
        /\ len (truncate_text text n) = n + 2 - len tail).
Proof.
  intros Hn Hlong cut.
  assert (Hcut : len cut = n) by (apply len_slice_to; lia).
  rewrite (truncate_text_long _ _ Hlong). fold cut.
  rewrite len_app. change (len "...") with 3.
  repeat split; try assumption.
  - pose proof (length_rsplit_head cut). unfold len in *. lia.
  - now apply rsplit_head_no_space.
  - rewrite rsplit_head_no_space by assumption. lia.
  - intros Hsp. destruct (rsplit_head_space _ Hsp) as (tail & E & Ht).
    exists tail. repeat split; try assumption.
    rewrite E in Hcut at 1. rewrite len_app in Hcut.
    change (String space tail) with (" " ++ tail) in Hcut.
    rewrite len_app in Hcut. change (len " ") with 1 in Hcut. lia.
Qed.

(** C3, as stated, fails: with a space among the last two characters of
    the cut the result is still longer than [max_length]. *)
Lemma truncate_text_exceeds_despite_space :
  truncate_text "a b cdefg" 5 = "a b..."
  /\ 5 < len (truncate_text "a b cdefg" 5)
  /\ has_char space (slice_to "a b cdefg" 5) = true.
Proof. repeat split. Qed.

(** C3 (amended).  For a bound [n >= 0]: a text no longer than [n] is
    returned unchanged; a longer text is cut at [n] characters, cut back
    to before the last space of that cut, and followed by ["..."].  The
    result is at most [n + 3] long, exactly [n + 3] when the cut has no
    space, and [n + 2] minus the number of characters after the last
    space otherwise: it still exceeds [n] when that space is one of the
    last two characters of the cut. *)
Theorem truncate_text_contract (text : string) (n : Z) :
  0 <= n ->
  (len text <= n -> truncate_text text n = text) /\
  (n < len text ->
   let cut := slice_to text n in
   truncate_text text n = rsplit_head cut ++ "..."
   /\ len cut = n
   /\ len (truncate_text text n) <= n + 3
   /\ (has_char space cut = false ->
       rsplit_head cut = cut /\ len (truncate_text text n) = n + 3)
   /\ (has_char space cut = true ->
       exists tail,
         cut = rsplit_head cut ++ String space tail
         /\ has_char space tail = false
         /\ len (truncate_text text n) = n + 2 - len tail)).
Proof.
  intros Hn. split.
  - apply truncate_text_short.
  - intros Hlong. now apply truncate_text_cut.
Qed.

Lemma truncate_text_contract_witness :
  0 <= 5 /\
  truncate_text "a b cdefg" 5 = rsplit_head (slice_to "a b cdefg" 5) ++ "...".
Proof.
  split; [lia|].
  apply (truncate_text_contract "a b cdefg" 5); [lia | reflexivity].
Defined.

(** C2, as stated, fails: the second application cuts again. *)
Lemma truncate_text_not_idempotent :
  truncate_text "a b cdefg" 5 = "a b..."
  /\ truncate_text (truncate_text "a b cdefg" 5) 5 = "a..."
  /\ truncate_text (truncate_text "a b cdefg" 5) 5 <> truncate_text "a b cdefg" 5.
Proof. repeat split. discriminate. Qed.

(** C2 (amended).  For a bound [n >= 0], truncating twice gives the same
    as truncating once exactly when the first result is no longer than
    [n] (in particular whenever [len text <= n]) or the first [n]
    characters of the text contain no space. *)
Theorem truncate_text_idempotent_iff (text : string) (n : Z) :
  0 <= n ->
  truncate_text (truncate_text text n) n = truncate_text text n
  <-> (len (truncate_text text n) <= n
       \/ has_char space (slice_to text n) = false).
Proof.
  intros Hn. split.
  - (* idempotent -> one of the two cases *)
    intros Hidem.
    destruct (Z.leb_spec (len (truncate_text text n)) n) as [Hle|Hgt];
      [now left | right].
    destruct (has_char space (slice_to text n)) eqn:Hsp; [exfalso | reflexivity].
    assert (Hlong : n < len text).
    { destruct (Z.leb_spec (len text) n) as [H|H]; [|exact H].
      rewrite (truncate_text_short _ _ H) in Hgt. lia. }
    destruct (truncate_text_cut text n Hn Hlong) as (Er & Hcut & _ & _ & Hs).
    destruct (Hs Hsp) as (tail & Ecut & Htail & Hlen).
    set (h := rsplit_head (slice_to text n)) in *.
    assert (Hh : len h + 1 + len tail = n).
    { rewrite Ecut in Hcut. rewrite len_app in Hcut.
      change (String space tail) with (" " ++ tail) in Hcut.
      rewrite len_app in Hcut. change (len " ") with 1 in Hcut. lia. }
    pose proof (len_nonneg tail) as Ht0.
    assert (Hlr : len (truncate_text text n) = len h + 3).
    { rewrite Er, len_app. reflexivity. }
    apply (f_equal len) in Hidem.
    rewrite (truncate_text_long (truncate_text text n) n Hgt) in Hidem.
    rewrite Er in Hidem at 1.
    rewrite slice_to_prefix in Hidem by lia.
    rewrite rsplit_head_app in Hidem by apply has_space_slice_dots.
    rewrite Hlr in Hidem.
    destruct (has_char space h) eqn:Hhsp.
    + pose proof (length_rsplit_head_space _ Hhsp) as Hlt.
      rewrite len_app in Hidem. change (len "...") with 3 in Hidem.
      unfold len in *. lia.
    + rewrite !len_app in Hidem. change (len "...") with 3 in Hidem.
      rewrite len_slice_to in Hidem; [lia|].
      change (len "...") with 3. lia.
  - (* each case gives idempotence *)
    intros [Hle | Hsp]; [now apply truncate_text_short|].
    destruct (Z.leb_spec (len text) n) as [Hshort|Hlong].
    + rewrite (truncate_text_short _ _ Hshort). now apply truncate_text_short.
    + destruct (truncate_text_cut text n Hn Hlong) as (Er & Hcut & _ & Hns & _).
      destruct (Hns Hsp) as [Eh Hlen].
      assert (E1 : truncate_text text n = slice_to text n ++ "...")
        by (rewrite Er; cbv zeta; now rewrite Eh).
      rewrite truncate_text_long by lia.
      rewrite E1, slice_to_prefix by lia.
      rewrite Hcut, Z.sub_diag. change (slice_to "..." 0) with "".
      now rewrite app_empty_r, rsplit_head_no_space.
Qed.

Lemma truncate_text_idempotent_iff_witness :
  0 <= 4 /\
  truncate_text (truncate_text "abcdefghij" 4) 4 = truncate_text "abcdefghij" 4.
Proof.
  split; [lia|].
  apply (truncate_text_idempotent_iff "abcdefghij" 4); [lia|].
  right. reflexivity.
Defined.

(** ** Running effectful code *)

Lemma added_nil (w : world) : added w [] w.
Proof. unfold added. now rewrite app_nil_r. Qed.

Lemma added_emit (w : world) (e : event) : added w [e] (emit e w).
Proof. reflexivity. Qed.

Lemma added_trans (w w1 w2 : world) (l1 l2 : list event) :
  added w l1 w1 -> added w1 l2 w2 -> added w (l1 ++ l2)%list w2.
Proof. unfold added. intros H1 H2. now rewrite H2, H1, app_assoc. Qed.

Lemma bind_returns {A B} (m : M A) (k : A -> M B) (w w' : world) (a : A) :
  m w = (Returns a, w') -> bind m k w = k a w'.
Proof. unfold bind. now intros ->. Qed.

Lemma try_except_returns {A} (body : M A) (h : exn -> M A) (w w' : world) (a : A) :
  body w = (Returns a, w') -> try_except body h w = (Returns a, w').
Proof. unfold try_except. now intros ->. Qed.

Lemma try_except_raises {A} (body : M A) (h : exn -> M A) (w w' : world) (e : exn) :
  body w = (Raises e, w') -> try_except body h w = h e w'.
Proof. unfold try_except. now intros ->. Qed.

Lemma translate_calls_app (l1 l2 : list event) :
  translate_calls (l1 ++ l2) = (translate_calls l1 ++ translate_calls l2)%list.
Proof. apply flat_map_app. Qed.

Lemma sleeps_app (l1 l2 : list event) : sleeps (l1 ++ l2) = (sleeps l1 ++ sleeps l2)%list.
Proof. apply flat_map_app. Qed.

Lemma checkpoints_app (l1 l2 : list event) :
  checkpoints (l1 ++ l2) = (checkpoints l1 ++ checkpoints l2)%list.
Proof. apply flat_map_app. Qed.

(** ** RetryingTranslator *)

Section Backoff.

Variable G : globals.
Variables (text : string) (t : translator) (max_retries : Z).

(** One iteration whose provider call succeeds: line 38 returns. *)
Lemma backoff_loop_success (attempt : Z) (rest : list Z) (w : world) (s : string) :
  provider_of G t (trace w) text = Returns s ->
  backoff_loop G text t max_retries (attempt :: rest) w
  = (Returns (Some s), emit (Translate t text) w).
Proof.
  intros H. simpl. unfold bind, try_except, translate, ret. now rewrite H.
Qed.

(** The last attempt fails: line 42 returns the marker, without a sleep. *)
Lemma backoff_loop_last_failure (attempt : Z) (rest : list Z) (w : world) (e : exn) :
  provider_of G t (trace w) text = Raises e ->
  attempt = max_retries - 1 ->
  backoff_loop G text t max_retries (attempt :: rest) w
  = (Returns (Some (failure_marker e)),
     emit (attempt_log attempt e) (emit (Translate t text) w)).
Proof.
  intros H Ha. simpl. unfold bind, try_except, translate, ret, log.
  rewrite H. apply Z.eqb_eq in Ha. now rewrite Ha.
Qed.

(** An earlier attempt fails: line 43 sleeps and the loop goes on. *)
Lemma backoff_loop_failure (attempt : Z) (rest : list Z) (w : world) (e : exn) :
  provider_of G t (trace w) text = Raises e ->
  attempt <> max_retries - 1 ->
  backoff_loop G text t max_retries (attempt :: rest) w
  = backoff_loop G text t max_retries rest
      (emit (Sleep (2 ^ attempt))
         (emit (attempt_log attempt e) (emit (Translate t text) w))).
Proof.
  intros H Ha. simpl. unfold bind, try_except, translate, ret, log, sleep.
  rewrite H. apply Z.eqb_neq in Ha. now rewrite Ha.
Qed.

(** The loop never raises; it returns from inside (line 38 or line 42)
    or runs out, and it runs out only when the attempt numbered
    [max_retries - 1] is not among those left. *)
Lemma backoff_loop_total (attempts : list Z) (w : world) :
  exists r w' l,
    backoff_loop G text t max_retries attempts w = (Returns r, w')
    /\ added w l w'
    /\ files w' = files w
    /\ backoff_outcome G text t max_retries w' r
    /\ (r = None -> ~ In (max_retries - 1) attempts)
    /\ Forall (retry_event t text) l
    /\ (attempts = [] -> l = []).
Proof.
  revert w. induction attempts as [|attempt rest IH]; intros w.
  - exists None, w, []. repeat split; auto using added_nil, RanOut.
  - destruct (provider_of G t (trace w) text) as [s|e] eqn:Hp.
    + exists (Some s), (emit (Translate t text) w), [Translate t text].
      rewrite (backoff_loop_success _ _ _ _ Hp).
      repeat split; try discriminate.
      * now apply (Translated _ _ _ _ _ (trace w) s).
      * repeat (constructor; simpl; auto).
    + destruct (Z.eq_dec attempt (max_retries - 1)) as [Ha|Ha].
      * exists (Some (failure_marker e)),
          (emit (attempt_log attempt e) (emit (Translate t text) w)),
          [Translate t text; attempt_log attempt e].
        rewrite (backoff_loop_last_failure _ _ _ _ Hp Ha).
        repeat split; try discriminate.
        -- unfold added. simpl. now rewrite <- app_assoc.
        -- apply (Exhausted _ _ _ _ _ (trace w) e); [|exact Hp].
           subst attempt. simpl. now rewrite <- app_assoc.
        -- repeat (constructor; simpl; auto).
      * rewrite (backoff_loop_failure _ _ _ _ Hp Ha).
        destruct (IH (emit (Sleep (2 ^ attempt))
                        (emit (attempt_log attempt e) (emit (Translate t text) w))))
          as (r & w' & l & Hrun & Hadd & Hf & Hout & Hnone & Hcalls & _).
        exists r, w',
          ([Translate t text; attempt_log attempt e; Sleep (2 ^ attempt)] ++ l)%list.
        repeat split; auto; try discriminate.
        -- unfold added in *. rewrite Hadd. simpl.
           now rewrite <- !app_assoc.
        -- intros Hr [Hin|Hin]; [congruence | now apply Hnone].
        -- repeat (constructor; [simpl; auto|]). exact Hcalls.
Qed.

Lemma in_range (n k : Z) : 0 <= k < n -> In k (range n).
Proof.
  intros H. unfold range. apply in_map_iff. exists (Z.to_nat k).
  split; [lia|]. apply in_seq. lia.
Qed.

Lemma range_nonpos (n : Z) : n <= 0 -> range n = [].
Proof.
  intros H. unfold range. now replace (Z.to_nat n) with O by lia.
Qed.

(** A provider that fails on every call: the remaining [m] attempts,
    numbered from [k], are all made, each but the last followed by a
    sleep of [2 ^ attempt]. *)
Lemma backoff_loop_all_fail (m k : nat) (w : world) :
  (forall tr, exists e, provider_of G t tr text = Raises e) ->
  Z.of_nat (k + m) = max_retries ->
  exists r w' l,
    backoff_loop G text t max_retries (map Z.of_nat (seq k m)) w = (Returns r, w')
    /\ added w l w'
    /\ translate_calls l = repeat (t, text) m
    /\ sleeps l = map (fun i => 2 ^ Z.of_nat i) (seq k (m - 1))
    /\ match m with
       | O => r = None
       | S _ => exists tr e,
           r = Some (failure_marker e)
           /\ trace w' = (tr ++ [Translate t text; attempt_log (max_retries - 1) e])%list
           /\ provider_of G t tr text = Raises e
       end.
Proof.
  intros Hfail. revert k w. induction m as [|m IH]; intros k w Hk.
  - exists None, w, []. repeat split; auto using added_nil.
  - destruct (Hfail (trace w)) as [e He]. simpl seq. simpl map.
    destruct m as [|m'].
    + assert (Ha : Z.of_nat k = max_retries - 1) by lia.
      rewrite (backoff_loop_last_failure _ _ _ _ He Ha).
      exists (Some (failure_marker e)),
        (emit (attempt_log (Z.of_nat k) e) (emit (Translate t text) w)),
        [Translate t text; attempt_log (Z.of_nat k) e].
      repeat split.
      * unfold added. simpl. now rewrite <- app_assoc.
      * exists (trace w), e. repeat split; [|exact He].
        rewrite <- Ha. simpl. now rewrite <- app_assoc.
    + assert (Ha : Z.of_nat k <> max_retries - 1) by lia.
      rewrite (backoff_loop_failure _ _ _ _ He Ha).
      destruct (IH (S k)
                  (emit (Sleep (2 ^ Z.of_nat k))
                     (emit (attempt_log (Z.of_nat k) e) (emit (Translate t text) w))))
        as (r & w' & l & Hrun & Hadd & Hcalls & Hsl & Hlast); [lia|].
      exists r, w',
        ([Translate t text; attempt_log (Z.of_nat k) e; Sleep (2 ^ Z.of_nat k)] ++ l)%list.
      repeat split.
      * exact Hrun.
      * unfold added in *. rewrite Hadd. simpl. now rewrite <- !app_assoc.
      * rewrite translate_calls_app, Hcalls. reflexivity.
      * rewrite sleeps_app, Hsl. simpl. now rewrite Nat.sub_0_r.
      * exact Hlast.
Qed.

End Backoff.

Lemma world_eq (w w' : world) :
  trace w' = trace w -> files w' = files w -> w' = w.
Proof. destruct w, w'. simpl. now intros -> ->. Qed.

(** C5.  [translate_with_backoff] never raises: whatever the provider
    does, it returns a string, which is the text the provider returned
    on the call made last, or the marker built from the error of the
    final attempt, or (with no attempt to make) the generic marker. *)
Theorem translate_with_backoff_never_raises
    (G : globals) (text : string) (t : translator) (max_retries : Z) (w : world) :
  exists s w',
    translate_with_backoff G text t max_retries w = (Returns s, w')
    /\ ((exists tr,
           trace w' = (tr ++ [Translate t text])%list
           /\ provider_of G t tr text = Returns s)
        \/ (exists tr e,
              trace w' = (tr ++ [Translate t text; attempt_log (max_retries - 1) e])%list
              /\ provider_of G t tr text = Raises e
              /\ s = "Translation failed: " ++ exn_str e)
        \/ (s = "Translation failed after maximum retries"
            /\ max_retries <= 0 /\ w' = w)).
Proof.
  unfold translate_with_backoff.
  destruct (backoff_loop_total G text t max_retries (range max_retries) w)
    as (r & w' & l & Hrun & Hadd & Hf & Hout & Hnone & _ & Hnil).
  rewrite (bind_returns _ _ _ _ _ Hrun).
  destruct Hout as [tr s Htr Hp | tr e Htr Hp | ].
  - exists s, w'. split; [reflexivity|]. left. now exists tr.
  - exists (failure_marker e), w'. split; [reflexivity|].
    right; left. now exists tr, e.
  - exists "Translation failed after maximum retries", w'.
    split; [reflexivity|]. right; right.
    assert (Hle : max_retries <= 0).
    { destruct (Z.le_gt_cases max_retries 0) as [H|H]; [exact H|].
      exfalso. apply (Hnone eq_refl). apply in_range. lia. }
    repeat split; [exact Hle|].
    apply world_eq; [|exact Hf].
    rewrite Hadd, (Hnil (range_nonpos _ Hle)). apply app_nil_r.
Qed.

(** C10.  With [max_retries >= 1] the loop of lines 36-43 always returns
    from inside (the translation at line 38 or the marker at line 42),
    so line 44 is not reached; with [max_retries = 0] the function
    returns the generic string of line 44 and leaves the world as it
    was: no provider call is made. *)
Theorem fallthrough_return_unreachable
    (G : globals) (text : string) (t : translator) (max_retries : Z) (w : world) :
  (1 <= max_retries ->
   exists s w',
     backoff_loop G text t max_retries (range max_retries) w = (Returns (Some s), w')
     /\ translate_with_backoff G text t max_retries w = (Returns s, w')
     /\ ((exists tr,
            trace w' = (tr ++ [Translate t text])%list
            /\ provider_of G t tr text = Returns s)
         \/ (exists tr e,
               trace w' = (tr ++ [Translate t text; attempt_log (max_retries - 1) e])%list
               /\ provider_of G t tr text = Raises e
               /\ s = "Translation failed: " ++ exn_str e)))
  /\ translate_with_backoff G text t 0 w
     = (Returns "Translation failed after maximum retries", w).
Proof.
  split; [|reflexivity].
  intros Hpos.
  destruct (backoff_loop_total G text t max_retries (range max_retries) w)
    as (r & w' & l & Hrun & _ & _ & Hout & Hnone & _).
  destruct Hout as [tr s Htr Hp | tr e Htr Hp | ].
  - exists s, w'. repeat split; [exact Hrun | |].
    + unfold translate_with_backoff. now rewrite (bind_returns _ _ _ _ _ Hrun).
    + left. now exists tr.
  - exists (failure_marker e), w'. repeat split; [exact Hrun | |].
    + unfold translate_with_backoff. now rewrite (bind_returns _ _ _ _ _ Hrun).
    + right. now exists tr, e.
  - exfalso. apply (Hnone eq_refl). apply in_range. lia.
Qed.

Lemma fallthrough_return_unreachable_witness :
  1 <= 5 /\
  exists s w',
    backoff_loop (module_globals (always_fails (Exn RequestException "down")) (stub []))
      "Hola" google_translator 5 (range 5) (empty_world canonical_input)
    = (Returns (Some s), w').
Proof.
  split; [lia|].
  destruct (fallthrough_return_unreachable
              (module_globals (always_fails (Exn RequestException "down")) (stub []))
              "Hola" google_translator 5 (empty_world canonical_input)) as [H _].
  destruct H as (s & w' & Hloop & _); [lia|].
  now exists s, w'.
Defined.

(** ** FallbackTranslator *)

Lemma startswith_failure_marker (e : exn) :
  startswith (failure_marker e) "Translation failed" = true.
Proof. reflexivity. Qed.

(** C4, as stated, fails: five failed attempts are separated by four
    sleeps; nothing sleeps 16 after the fifth. *)
Lemma backoff_sleeps_stop_at_eight :
  let G := module_globals (always_fails (Exn RequestException "down")) (stub []) in
  let w := empty_world canonical_input in
  exists w',
    translate_with_backoff G "Hola" google_translator 5 w
    = (Returns "Translation failed: down", w')
    /\ translate_calls (trace w') = repeat (google_translator, "Hola") 5
    /\ sleeps (trace w') = [1; 2; 4; 8]
    /\ sleeps (trace w') <> [1; 2; 4; 8; 16].
Proof.
  eexists. split; [reflexivity|]. repeat split. discriminate.
Qed.

(** C4 (amended).  When every call of the primary provider fails,
    [translate_with_backoff] with [max_retries = 5] makes exactly 5
    provider calls, sleeps 1, 2, 4, 8 between them ([2 ^ attempt] after
    attempts 0 to 3, nothing after the fifth), and returns
    ["Translation failed: <error>"] with the error of the fifth call;
    in [translate_text] the fallback provider is invoked right after,
    once the warning is logged. *)
Theorem always_failing_provider_retries
    (G : globals) (text : string) (index : Z) (w : world) :
  (forall tr, exists e, google G tr text = Raises e) ->
  exists e w1 l1,
    translate_with_backoff G text google_translator 5 w
    = (Returns ("Translation failed: " ++ exn_str e), w1)
    /\ added w l1 w1
    /\ translate_calls l1 = repeat (google_translator, text) 5
    /\ sleeps l1 = [1; 2; 4; 8]
    /\ (exists tr,
          trace w1 = (tr ++ [Translate google_translator text; attempt_log 4 e])%list
          /\ google G tr text = Raises e)
    /\ translate_text_body G text index w
       = translate_with_backoff G text mymemory_translator 5
           (emit (Log WARNING ("Google Translate failed for index " ++ of_int index
                               ++ ". Trying MyMemory Translator.")) w1).
Proof.
  intros Hfail.
  destruct (backoff_loop_all_fail G text google_translator 5 5 0 w Hfail eq_refl)
    as (r & w1 & l1 & Hrun & Hadd & Hcalls & Hsl & (tr & e & -> & Htr & He)).
  assert (Htwb : translate_with_backoff G text google_translator 5 w
                 = (Returns (failure_marker e), w1)).
  { unfold translate_with_backoff. change (range 5) with (map Z.of_nat (seq 0 5)).
    now rewrite (bind_returns _ _ _ _ _ Hrun). }
  exists e, w1, l1. repeat split; try assumption.
  - now exists tr.
  - unfold translate_text_body.
    rewrite (bind_returns _ _ _ _ _ Htwb), startswith_failure_marker.
    reflexivity.
Qed.

Lemma always_failing_provider_retries_witness :
  (forall tr, exists e, always_fails (Exn RequestException "down") tr "Hola" = Raises e)
  /\ exists e w1 l1,
      translate_with_backoff
        (module_globals (always_fails (Exn RequestException "down")) (stub []))
        "Hola" google_translator 5 (empty_world canonical_input)
      = (Returns ("Translation failed: " ++ exn_str e), w1)
      /\ added (empty_world canonical_input) l1 w1
      /\ sleeps l1 = [1; 2; 4; 8].
Proof.
  assert (H : forall tr, exists e,
               always_fails (Exn RequestException "down") tr "Hola" = Raises e)
    by (intros tr; now exists (Exn RequestException "down")).
  split; [exact H|].
  destruct (always_failing_provider_retries
              (module_globals (always_fails (Exn RequestException "down")) (stub []))
              "Hola" 0 (empty_world canonical_input) H)
    as (e & w1 & l1 & Hrun & Hadd & _ & Hsl & _).
  now exists e, w1, l1.
Defined.

Lemma retry_event_translation (t : translator) (text : string) (e : event) :
  retry_event t text e -> translation_event text e.
Proof. destruct e as [t' s|[]| |]; simpl; tauto. Qed.

Lemma translate_with_backoff_total
    (G : globals) (text : string) (t : translator) (max_retries : Z) (w : world) :
  exists s w' l,
    translate_with_backoff G text t max_retries w = (Returns s, w')
    /\ added w l w'
    /\ files w' = files w
    /\ Forall (translation_event text) l.
Proof.
  destruct (backoff_loop_total G text t max_retries (range max_retries) w)
    as (r & w' & l & Hrun & Hadd & Hf & _ & _ & Hev & _).
  exists (match r with Some s => s | None => "Translation failed after maximum retries" end),
    w', l.
  repeat split; try assumption.
  - unfold translate_with_backoff. rewrite (bind_returns _ _ _ _ _ Hrun).
    now destruct r.
  - eapply Forall_impl; [|exact Hev]. apply retry_event_translation.
Qed.

(** The body of the [try] in [translate_text] never raises. *)
Lemma translate_text_body_total (G : globals) (text : string) (index : Z) (w : world) :
  exists s w' l,
    translate_text_body G text index w = (Returns s, w')
    /\ added w l w'
    /\ files w' = files w
    /\ Forall (translation_event text) l.
Proof.
  destruct (translate_with_backoff_total G text google_translator 5 w)
    as (s1 & w1 & l1 & Hrun1 & Hadd1 & Hf1 & Hev1).
  unfold translate_text_body. rewrite (bind_returns _ _ _ _ _ Hrun1).
  destruct (startswith s1 "Translation failed").
  - set (warn := Log WARNING ("Google Translate failed for index " ++ of_int index
                              ++ ". Trying MyMemory Translator.")).
    destruct (translate_with_backoff_total G text mymemory_translator 5 (emit warn w1))
      as (s2 & w2 & l2 & Hrun2 & Hadd2 & Hf2 & Hev2).
    exists s2, w2, (l1 ++ warn :: l2)%list. repeat split.
    + unfold bind at 1, log. exact Hrun2.
    + unfold added in *. rewrite Hadd2. simpl. rewrite Hadd1.
      now rewrite <- !app_assoc.
    + now rewrite Hf2.
    + apply Forall_app. split; [exact Hev1|]. constructor; [exact I | exact Hev2].
  - exists s1, w1, l1. now repeat split.
Qed.

Lemma translate_text_total (G : globals) (text : cell) (index : Z) (w : world) :
  exists s w' l,
    translate_text G text index w = (Returns s, w')
    /\ added w l w'
    /\ files w' = files w
    /\ Forall (translation_event (py_str text)) l.
Proof.
  destruct text as [s| | |];
    [| exists "", w, []; repeat split; auto using added_nil ..].
  simpl. destruct (s =? "")%string.
  - exists "", w, []. repeat split; auto using added_nil.
  - destruct (translate_text_body_total G s index w) as (r & w' & l & Hrun & H).
    exists r, w', l. split; [|exact H].
    unfold translate_text_try. now apply try_except_returns.
Qed.

(** [translate_text] itself short-circuits on an absent or empty text:
    the empty string, and nothing happens. *)
Lemma translate_text_absent_or_empty (G : globals) (text : cell) (index : Z) (w : world) :
  isna text = true \/ text = Str "" ->
  translate_text G text index w = (Returns "", w).
Proof.
  intros [H| ->]; [|reflexivity]. now destruct text.
Qed.

(** C6.  Row-level error containment is broken by the missing
    [import requests]: with the globals of the script, whatever error
    the [try] body of [translate_text] raises, evaluating the class of
    the first [except] clause raises [NameError].  No handler runs,
    nothing is logged and no marker is returned: the [try] statement
    ends with the [NameError], in the world the body left. *)
Lemma translate_text_try_name_error
    (g m : provider) (body : M string) (index : Z) (w w1 : world) (e : exn) :
  body w = (Raises e, w1) ->
  translate_text_try (module_globals g m) body index w
  = (Raises (Exn NameError "name 'requests' is not defined"), w1).
Proof.
  intros H. unfold translate_text_try.
  now rewrite (try_except_raises _ _ _ _ _ H).
Qed.

Lemma translate_text_try_name_error_witness :
  let e := Exn Exception "'NoneType' object has no attribute 'startswith'" in
  let w := empty_world canonical_input in
  raise (A := string) e w = (Raises e, w)
  /\ translate_text_try (module_globals (stub []) (stub [])) (raise e) 7 w
     = (Raises (Exn NameError "name 'requests' is not defined"), w).
Proof.
  intros e w. split; [reflexivity|].
  exact (translate_text_try_name_error (stub []) (stub []) (raise e) 7 w w e eq_refl).
Defined.

(** What the two handlers of lines 55-60 do once [requests] is bound:
    the error becomes a string that carries the error text; the row
    index goes to the log entry only. *)
Lemma translate_text_except_bound
    (G : globals) (index : Z) (body : M string) (w w1 : world) (e : exn) :
  requests_bound G = true ->
  body w = (Raises e, w1) ->
  translate_text_try G body index w
  = if is_request_exception e
    then (Returns ("Network error: " ++ exn_str e),
          emit (Log ERROR ("Network error at index " ++ of_int index
                           ++ ": " ++ exn_str e)) w1)
    else (Returns ("Unexpected error: " ++ exn_str e),
          emit (Log ERROR ("Unexpected error at index " ++ of_int index
                           ++ ": " ++ exn_str e)) w1).
Proof.
  intros Hreq Hbody. unfold translate_text_try.
  rewrite (try_except_raises _ _ _ _ _ Hbody).
  unfold translate_text_except. rewrite Hreq.
  now destruct (is_request_exception e).
Qed.

(** ** BatchRunner *)

Lemma process_row_skip (G : globals) (index : Z) (row : Row) (df : list Row) (w : world) :
  isna (translated_summary row) = false ->
  process_row G index row df w = (Returns df, emit (Sleep 1) w).
Proof. intros H. unfold process_row. now rewrite H. Qed.

Lemma process_row_result (G : globals) (index : Z) (row : Row) (df : list Row) (w : world) :
  exists df1 w1 l,
    process_row G index row df w = (Returns df1, w1)
    /\ added w l w1
    /\ row_result index row df df1 l.
Proof.
  destruct (isna (translated_summary row)) eqn:Hna.
  - destruct (translate_text_total G (Str (original_text row)) index w)
      as (s & w1 & l & Hrun & Hadd & _ & Hev).
    simpl in Hev.
    set (df1 := set_translated_summary df index (Str (truncate_text s 150))).
    pose proof (row_processed index row df s l Hna Hev) as Hres.
    fold df1 in Hres.
    unfold process_row. rewrite Hna. fold (original_text row).
    unfold bind at 1. unfold bind at 1. rewrite Hrun. fold df1.
    destruct (index mod 10 =? 0).
    + eexists _, _, _. split; [reflexivity|]. split; [|exact Hres].
      unfold added in *. simpl. rewrite Hadd. now rewrite <- !app_assoc.
    + eexists _, _, _. split; [reflexivity|]. split; [|exact Hres].
      unfold added in *. simpl. rewrite Hadd. now rewrite <- !app_assoc.
  - exists df, (emit (Sleep 1) w), [Sleep 1].
    split; [now apply process_row_skip|].
    split; [apply added_emit | now constructor].
Qed.

Lemma process_rows_result (G : globals) (it : list (Z * Row)) (df : list Row) (w : world) :
  exists df' w' l,
    process_rows G it df w = (Returns df', w')
    /\ added w l w'
    /\ rows_result it df df' l.
Proof.
  revert df w. induction it as [|[index row] rest IH]; intros df w.
  - exists df, w, []. repeat split; [apply added_nil | constructor].
  - destruct (process_row_result G index row df w) as (df1 & w1 & l1 & Hrow & Hadd1 & Hres1).
    destruct (IH df1 w1) as (df' & w' & l & Hrun & Hadd & Hres).
    exists df', w', (l1 ++ l)%list. repeat split.
    + simpl. now rewrite (bind_returns _ _ _ _ _ Hrow).
    + now apply added_trans with w1.
    + now apply rows_step with df1.
Qed.

(** *** The table under the loop *)

Lemma length_set_nth (i : nat) (v : cell) (df : list Row) :
  List.length (set_nth i v df) = List.length df.
Proof.
  revert i; induction df as [|r df IH]; intros [|i]; simpl; auto.
Qed.

Lemma length_set_translated_summary (df : list Row) (index : Z) (v : cell) :
  List.length (set_translated_summary df index v) = List.length df.
Proof.
  unfold set_translated_summary. destruct (index <? 0); [reflexivity|].
  apply length_set_nth.
Qed.

Lemma set_nth_app (pre : list Row) (r : Row) (rs : list Row) (v : cell) :
  set_nth (List.length pre) v (pre ++ r :: rs)
  = (pre ++ {| summary := summary r; translated_summary := v |} :: rs)%list.
Proof. induction pre as [|p pre IH]; simpl; [reflexivity | now rewrite IH]. Qed.

Lemma set_translated_summary_at (pre : list Row) (r : Row) (rs : list Row) (v : cell) :
  set_translated_summary (pre ++ r :: rs) (Z.of_nat (List.length pre)) v
  = (pre ++ {| summary := summary r; translated_summary := v |} :: rs)%list.
Proof.
  unfold set_translated_summary.
  destruct (Z.ltb_spec (Z.of_nat (List.length pre)) 0); [lia|].
  rewrite Nat2Z.id. apply set_nth_app.
Qed.

Lemma nth_error_set_nth (i : nat) (v : cell) (df : list Row) :
  (i < List.length df)%nat ->
  exists r, nth_error (set_nth i v df) i = Some r /\ translated_summary r = v.
Proof.
  revert i; induction df as [|r df IH]; intros [|i] H; simpl in *; try lia.
  - eexists. split; reflexivity.
  - apply IH. lia.
Qed.

Lemma iterrows_eq (df : list Row) :
  iterrows df = combine (map Z.of_nat (seq 0 (List.length df))) df.
Proof. unfold iterrows, range. now rewrite Nat2Z.id. Qed.

Lemma iterrows_index (df : list Row) (ir : Z * Row) :
  In ir (iterrows df) -> 0 <= fst ir < Z.of_nat (List.length df) /\ In (snd ir) df.
Proof.
  rewrite iterrows_eq. destruct ir as [i r]. intros H. split.
  - apply in_combine_l in H. apply in_map_iff in H as (j & <- & Hj).
    apply in_seq in Hj. simpl. lia.
  - now apply in_combine_r in H.
Qed.

Lemma row_result_length (index : Z) (row : Row) (df df1 : list Row) (l : list event) :
  row_result index row df df1 l -> List.length df1 = List.length df.
Proof.
  intros [|]; [reflexivity | apply length_set_translated_summary].
Qed.

Lemma rows_result_length (it : list (Z * Row)) (df df' : list Row) (l : list event) :
  rows_result it df df' l -> List.length df' = List.length df.
Proof.
  induction 1 as [|index row rest df df1 df' l1 l Hrow _ IH]; [reflexivity|].
  rewrite IH. eapply row_result_length; eauto.
Qed.

(** Rows are visited in order, each at its own position: what the loop
    leaves behind agrees with the table it started from, row by row. *)
Lemma rows_result_positional (rs pre df' : list Row) (l : list event) :
  rows_result (combine (map Z.of_nat (seq (List.length pre) (List.length rs))) rs)
    (pre ++ rs) df' l ->
  exists rs', df' = (pre ++ rs')%list /\ Forall2 row_after rs rs'.
Proof.
  revert pre df' l. induction rs as [|r rs IH]; intros pre df' l H.
  - inversion H; subst. exists []. split; [reflexivity | constructor].
  - simpl in H. inversion H as [|index row rest df0 df1 df0' l1 l2 Hrow Hrest]; subst.
    assert (Hnext : forall r1 : Row,
               df1 = (pre ++ r1 :: rs)%list ->
               row_after r r1 ->
               exists rs', df' = (pre ++ rs')%list /\ Forall2 row_after (r :: rs) rs').
    { intros r1 -> Hr1.
      replace (pre ++ r1 :: rs)%list with ((pre ++ [r1]) ++ rs)%list in Hrest
        by now rewrite <- app_assoc.
      replace (S (List.length pre)) with (List.length (pre ++ [r1])) in Hrest
        by (rewrite length_app; simpl; lia).
      destruct (IH _ _ _ Hrest) as (rs' & -> & Hall).
      exists (r1 :: rs'). split; [now rewrite <- app_assoc | now constructor]. }
    inversion Hrow as [Hna | s lt Hna Hev]; subst.
    + apply (Hnext r eq_refl). unfold row_after. auto.
    + apply (Hnext _ (set_translated_summary_at pre r rs _)).
      unfold row_after. simpl. repeat split. congruence.
Qed.

Lemma rows_result_iterrows (df df' : list Row) (l : list event) :
  rows_result (iterrows df) df df' l -> Forall2 row_after df df'.
Proof.
  intros H. rewrite iterrows_eq in H.
  destruct (rows_result_positional df [] df' l H) as (rs' & -> & Hall).
  exact Hall.
Qed.

(** *** The events of the loop *)

Lemma translation_events_calls (text : string) (l : list event) :
  Forall (translation_event text) l ->
  Forall (fun c => snd c = text) (translate_calls l).
Proof.
  induction 1 as [|e l He _ IH]; [constructor|].
  destruct e as [t s|lv m|n|p d]; simpl in *; auto.
Qed.

Lemma translation_events_quiet (text : string) (l : list event) :
  Forall (translation_event text) l -> info_logs l = [] /\ checkpoints l = [].
Proof.
  induction 1 as [|e l He _ [IH1 IH2]]; [now split|].
  destruct e as [t s|[]|n|p d]; simpl in *; try tauto.
Qed.

Lemma info_logs_app (l1 l2 : list event) :
  info_logs (l1 ++ l2) = (info_logs l1 ++ info_logs l2)%list.
Proof. apply filter_app. Qed.

(** Every provider call of the loop is made for a pending row, on the
    text of that row. *)
Lemma rows_result_calls (it : list (Z * Row)) (df df' : list Row) (l : list event) :
  rows_result it df df' l ->
  Forall (fun c => exists ir, In ir it /\ pending ir = true
                              /\ snd c = original_text (snd ir))
    (translate_calls l).
Proof.
  induction 1 as [|index row rest df df1 df' l1 l Hrow _ IH]; [constructor|].
  rewrite translate_calls_app. apply Forall_app. split.
  - inversion Hrow as [Hna | s lt Hna Hev]; subst; [constructor|].
    rewrite !translate_calls_app.
    replace (translate_calls
               (if index mod 10 =? 0
                then [ToCsv checkpoint_file
                        (set_translated_summary df index (Str (truncate_text s 150)));
                      checkpoint_log index]
                else [])) with (@nil (translator * string))
      by now destruct (index mod 10 =? 0).
    simpl. rewrite app_nil_r.
    eapply Forall_impl; [|exact (translation_events_calls _ _ Hev)].
    intros c Hc. exists (index, row). repeat split; [now left | exact Hna | exact Hc].
  - eapply Forall_impl; [|exact IH].
    intros c (ir & Hin & Hp & Hc). exists ir. repeat split; [now right | exact Hp | exact Hc].
Qed.

(** The checkpoint entries of the loop are those of the pending rows
    whose index is a multiple of 10, in order. *)
Lemma rows_result_checkpoint_logs (it : list (Z * Row)) (df df' : list Row) (l : list event) :
  rows_result it df df' l ->
  info_logs l = map (fun ir => checkpoint_log (fst ir)) (filter triggers_checkpoint it)
  /\ List.length (checkpoints l) = List.length (filter triggers_checkpoint it).
Proof.
  induction 1 as [|index row rest df df1 df' l1 l Hrow _ [IH1 IH2]]; [now split|].
  rewrite info_logs_app, checkpoints_app, length_app, IH1, IH2.
  simpl filter.
  change (triggers_checkpoint (index, row))
    with (isna (translated_summary row) && (index mod 10 =? 0)).
  inversion Hrow as [Hna | s lt Hna Hev]; subst; rewrite Hna; [now split|].
  destruct (translation_events_quiet _ _ Hev) as [Hq1 Hq2].
  rewrite !info_logs_app, !checkpoints_app, Hq1, Hq2.
  destruct (index mod 10 =? 0); now split.
Qed.

(** *** The table after the loop *)

Lemma row_after_forall (df df' : list Row) :
  Forall2 row_after df df' ->
  List.length df' = List.length df
  /\ Forall (fun r => isna (translated_summary r) = false) df'
  /\ Forall2 (fun r r' => isna (translated_summary r) = false -> r' = r) df df'.
Proof.
  induction 1 as [|r r' df df' (Hs & Hn & Hk) _ (IH1 & IH2 & IH3)].
  - repeat split; constructor.
  - repeat split; simpl; [now rewrite IH1 | now constructor | now constructor].
Qed.

(** C9.  Coverage: the loop body leaves the row at its index with a
    value, and the loop over a table always completes and returns a
    table of the same length in which every row has a non-absent
    [translated_summary]. *)
Theorem coverage (G : globals) :
  (forall (pre : list Row) (r : Row) (rs : list Row) (w : world),
      exists df1 w1 r1,
        process_row G (Z.of_nat (List.length pre)) r (pre ++ r :: rs) w
        = (Returns df1, w1)
        /\ df1 = (pre ++ r1 :: rs)%list
        /\ isna (translated_summary r1) = false)
  /\ (forall (df : list Row) (w : world),
         exists df' w',
           process_rows G (iterrows df) df w = (Returns df', w')
           /\ List.length df' = List.length df
           /\ Forall (fun r => isna (translated_summary r) = false) df').
Proof.
  split.
  - intros pre r rs w.
    destruct (process_row_result G (Z.of_nat (List.length pre)) r (pre ++ r :: rs) w)
      as (df1 & w1 & l & Hrun & _ & Hres).
    inversion Hres as [Hna | s lt Hna Hev]; subst.
    + exists (pre ++ r :: rs)%list, w1, r. now repeat split.
    + eexists _, w1, _. split; [exact Hrun|].
      split; [apply set_translated_summary_at | reflexivity].
  - intros df w.
    destruct (process_rows_result G (iterrows df) df w) as (df' & w' & l & Hrun & _ & Hres).
    apply rows_result_iterrows, row_after_forall in Hres as (Hlen & Hall & _).
    now exists df', w'.
Qed.

(** The rows that carry a value in the table the loop starts from (a
    failure marker included) come out unchanged, and every provider call
    of the loop is made for a row that was pending in that table. *)
Lemma set_rows_are_skipped (G : globals) (df : list Row) (w : world) :
  exists df' w' l,
    process_rows G (iterrows df) df w = (Returns df', w')
    /\ added w l w'
    /\ Forall2 (fun r r' => isna (translated_summary r) = false -> r' = r) df df'
    /\ Forall (fun c => exists r, In r df
                                  /\ isna (translated_summary r) = true
                                  /\ snd c = original_text r)
         (translate_calls l).
Proof.
  destruct (process_rows_result G (iterrows df) df w) as (df' & w' & l & Hrun & Hadd & Hres).
  exists df', w', l. split; [exact Hrun|]. split; [exact Hadd|]. split.
  - now apply rows_result_iterrows, row_after_forall in Hres.
  - eapply Forall_impl; [|exact (rows_result_calls _ _ _ _ Hres)].
    intros c (ir & Hin & Hp & Hc). exists (snd ir).
    repeat split; [now apply iterrows_index | exact Hp | exact Hc].
Qed.

(** *** Checkpoints *)

Lemma added_inj (w w' : world) (l l' : list event) :
  added w l w' -> added w l' w' -> l = l'.
Proof.
  unfold added. intros H H'. rewrite H in H'. now apply app_inv_head in H'.
Qed.

Lemma skipn_past (A : Type) (l1 l1' l2 : list A) (n : nat) :
  List.length l1 = List.length l1' -> (List.length l1 <= n)%nat ->
  skipn n (l1 ++ l2) = skipn n (l1' ++ l2).
Proof.
  intros Hlen Hn. rewrite !skipn_app, <- Hlen.
  rewrite (skipn_all2 l1) by lia. rewrite (skipn_all2 l1') by lia. reflexivity.
Qed.

Lemma iterrows_nth (rs : list Row) (k : nat) (ir : Z * Row) :
  In ir (combine (map Z.of_nat (seq k (List.length rs))) rs) ->
  exists j, fst ir = Z.of_nat (k + j) /\ nth_error rs j = Some (snd ir).
Proof.
  revert k. induction rs as [|r rs IH]; intros k; simpl; [intros []|].
  intros [<-|H].
  - exists 0%nat. simpl. split; [f_equal; lia | reflexivity].
  - destruct (IH (S k) H) as (j & Hj & Hn). exists (S j).
    split; [rewrite Hj; f_equal; lia | exact Hn].
Qed.

(** One iteration on a pending row, in full: the row is translated, the
    truncated result is stored at its index, the table so updated is
    saved when the index is a multiple of 10, and the iteration ends
    with its sleep. *)
Lemma process_row_pending
    (G : globals) (index : Z) (row : Row) (df : list Row) (w w1 : world) (s : string) :
  isna (translated_summary row) = true ->
  translate_text G (Str (original_text row)) index w = (Returns s, w1) ->
  process_row G index row df w
  = (Returns (set_translated_summary df index (Str (truncate_text s 150))),
     emit (Sleep 1)
       (if index mod 10 =? 0
        then emit (checkpoint_log index)
               (emit (ToCsv checkpoint_file
                        (set_translated_summary df index (Str (truncate_text s 150))))
                  (write_file checkpoint_file
                     (WithTranslation
                        (set_translated_summary df index (Str (truncate_text s 150))))
                     w1))
        else w1)).
Proof.
  intros Hna Htr. unfold process_row. rewrite Hna. fold (original_text row).
  unfold bind at 1. unfold bind at 1. rewrite Htr.
  destruct (index mod 10 =? 0); reflexivity.
Qed.

(** The table each checkpoint of the loop saves: the rows up to the
    triggering one as the loop leaves them, the rows after it as the
    loop found them. *)
Lemma rows_result_checkpoint_tables (rs pre df' : list Row) (l : list event) :
  rows_result (combine (map Z.of_nat (seq (List.length pre) (List.length rs))) rs)
    (pre ++ rs) df' l ->
  forall (j : nat) (r : Row),
    nth_error rs j = Some r ->
    isna (translated_summary r) = true ->
    Z.of_nat (List.length pre + j) mod 10 = 0 ->
    exists l1 l2,
      l = (l1 ++ ToCsv checkpoint_file
                   (firstn (S (List.length pre + j)) df'
                    ++ skipn (S (List.length pre + j)) (pre ++ rs))
              :: checkpoint_log (Z.of_nat (List.length pre + j)) :: l2)%list.
Proof.
  revert pre df' l. induction rs as [|r0 rs IH]; intros pre df' l H j r Hnth Hna Hmod.
  - destruct j; discriminate.
  - simpl in H. inversion H as [|index row rest df0 df1 df0' la lb Hrow Hrest]; subst.
    assert (Hl1 : forall x : Row, List.length (pre ++ [x]) = S (List.length pre))
      by (intros x; rewrite List.length_app; simpl; lia).
    assert (Hlater : forall (r1 : Row) (j' : nat),
               df1 = (pre ++ r1 :: rs)%list ->
               j = S j' ->
               exists l1 l2,
                 (la ++ lb)%list
                 = (l1 ++ ToCsv checkpoint_file
                            (firstn (S (List.length pre + j)) df'
                             ++ skipn (S (List.length pre + j)) (pre ++ r0 :: rs))
                       :: checkpoint_log (Z.of_nat (List.length pre + j)) :: l2)%list).
    { intros r1 j' -> ->.
      replace (pre ++ r1 :: rs)%list with ((pre ++ [r1]) ++ rs)%list in Hrest
        by now rewrite <- app_assoc.
      rewrite <- (Hl1 r1) in Hrest.
      simpl in Hnth.
      replace (List.length pre + S j')%nat with (List.length (pre ++ [r1]) + j')%nat in *
        by (rewrite Hl1; lia).
      destruct (IH _ _ _ Hrest j' r Hnth Hna Hmod) as (l1 & l2 & ->).
      exists (la ++ l1)%list, l2. rewrite (app_assoc la l1). do 4 f_equal.
      replace (pre ++ r0 :: rs)%list with ((pre ++ [r0]) ++ rs)%list
        by now rewrite <- app_assoc.
      apply skipn_past; rewrite !List.length_app; simpl; lia. }
    inversion Hrow as [Hna0 | s lt Hna0 Hev]; subst.
    + destruct j as [|j']; [simpl in Hnth; congruence|].
      now apply (Hlater r0 j').
    + rewrite set_translated_summary_at in *.
      set (r1 := {| summary := summary r0;
                    translated_summary := Str (truncate_text s 150) |}) in *.
      destruct j as [|j']; [|now apply (Hlater r1 j')].
      rewrite Nat.add_0_r in *. rewrite Hmod. simpl Z.eqb. cbv iota.
      replace (pre ++ r1 :: rs)%list with ((pre ++ [r1]) ++ rs)%list in Hrest
        by now rewrite <- app_assoc.
      rewrite <- (Hl1 r1) in Hrest.
      destruct (rows_result_positional _ _ _ _ Hrest) as (rs' & -> & Hall).
      exists lt, (Sleep 1 :: lb).
      assert (Hd : (pre ++ r1 :: rs)%list
                   = (firstn (S (List.length pre)) ((pre ++ [r1]) ++ rs')
                      ++ skipn (S (List.length pre)) (pre ++ r0 :: rs))%list).
      { rewrite firstn_app, Hl1, Nat.sub_diag.
        rewrite firstn_all2 by (rewrite Hl1; lia).
        simpl firstn. rewrite app_nil_r.
        replace (pre ++ r0 :: rs)%list with ((pre ++ [r0]) ++ rs)%list
          by now rewrite <- app_assoc.
        rewrite skipn_app, Hl1, Nat.sub_diag.
        rewrite skipn_all2 by (rewrite Hl1; lia).
        simpl. now rewrite <- app_assoc. }
      rewrite <- Hd. now rewrite <- !app_assoc.
Qed.

(** C8, as stated, fails: in a loop over a table whose row 0 already
    has a value, row 0 is skipped, so index 0 triggers no checkpoint,
    although the loop goes on to translate row 2; the checkpoint file is
    left as it was. *)
Lemma skipped_row_triggers_no_checkpoint :
  let G := module_globals (stub [("gracias", "thanks")]) (stub []) in
  let run := process_rows G (iterrows checkpointed_rows) checkpointed_rows
               checkpointed_world in
  fst run
  = Returns
      [{| summary := Str "Hola mundo"; translated_summary := Str "Hello world" |};
       {| summary := Str "adios"; translated_summary := Str "Translation failed: down" |};
       {| summary := Str "gracias"; translated_summary := Str "thanks" |}]
  /\ translate_calls (trace (snd run)) = [(google_translator, "gracias")]
  /\ checkpoints (trace (snd run)) = []
  /\ files (snd run) checkpoint_file = Some (WithTranslation checkpointed_rows).
Proof. vm_compute. repeat split. Qed.

(** C8 (amended).  A row triggers a checkpoint exactly when it is
    pending and its 0-based index is a multiple of 10.  One iteration: a
    row that already has a value only sleeps; a pending row is
    translated and stored, and when its index is a multiple of 10 the
    table with the new value in it is written to the checkpoint file and
    the entry ["Checkpoint saved at row i"] is logged, before the sleep.
    The whole loop over [df]: the log holds one such entry per
    triggering row, in order, and as many checkpoint writes; the write
    of row [i] comes right before its entry and saves the rows up to [i]
    as the loop leaves them followed by the rows after [i] as they were
    at the start.  For a pending first row the write follows the
    translation of that row directly and holds its truncated result. *)
Theorem checkpoint_trigger (G : globals) :
  (forall (index : Z) (row : Row) (df : list Row) (w : world),
      isna (translated_summary row) = false ->
      process_row G index row df w = (Returns df, emit (Sleep 1) w))
  /\ (forall (index : Z) (row : Row) (df : list Row) (w w1 : world) (s : string),
         isna (translated_summary row) = true ->
         translate_text G (Str (original_text row)) index w = (Returns s, w1) ->
         process_row G index row df w
         = (Returns (set_translated_summary df index (Str (truncate_text s 150))),
            emit (Sleep 1)
              (if index mod 10 =? 0
               then emit (checkpoint_log index)
                      (emit (ToCsv checkpoint_file
                               (set_translated_summary df index
                                  (Str (truncate_text s 150))))
                         (write_file checkpoint_file
                            (WithTranslation
                               (set_translated_summary df index
                                  (Str (truncate_text s 150))))
                            w1))
               else w1)))
  /\ (forall (df : list Row) (w : world),
         exists df' w' l,
           process_rows G (iterrows df) df w = (Returns df', w')
           /\ added w l w'
           /\ info_logs l
              = map (fun ir => checkpoint_log (fst ir))
                  (filter triggers_checkpoint (iterrows df))
           /\ List.length (checkpoints l)
              = List.length (filter triggers_checkpoint (iterrows df))
           /\ (forall ir,
                  In ir (iterrows df) -> triggers_checkpoint ir = true ->
                  exists l1 l2,
                    l = (l1 ++ ToCsv checkpoint_file
                                 (firstn (S (Z.to_nat (fst ir))) df'
                                  ++ skipn (S (Z.to_nat (fst ir))) df)
                            :: checkpoint_log (fst ir) :: l2)%list)
           /\ (forall r rs,
                  df = r :: rs -> isna (translated_summary r) = true ->
                  exists s w1 lt l2,
                    translate_text G (Str (original_text r)) 0 w = (Returns s, w1)
                    /\ added w lt w1
                    /\ l = (lt ++ ToCsv checkpoint_file
                                    ({| summary := summary r;
                                        translated_summary := Str (truncate_text s 150) |}
                                       :: rs)
                               :: checkpoint_log 0 :: l2)%list)).
Proof.
  split; [|split].
  - intros index row df w Hna. now apply process_row_skip.
  - intros index row df w w1 s Hna Htr. now apply process_row_pending.
  - intros df w.
    destruct (process_rows_result G (iterrows df) df w)
      as (df' & w' & l & Hrun & Hadd & Hres).
    exists df', w', l.
    destruct (rows_result_checkpoint_logs _ _ _ _ Hres) as [Hlogs Hcount].
    split; [exact Hrun|]. split; [exact Hadd|]. split; [exact Hlogs|].
    split; [exact Hcount|]. split.
    + intros ir Hin Htrig.
      rewrite iterrows_eq in Hin, Hres.
      destruct (iterrows_nth _ _ _ Hin) as (j & Hj & Hnth). simpl in Hj.
      unfold triggers_checkpoint, pending in Htrig.
      apply andb_true_iff in Htrig as [Hna Hmod]. apply Z.eqb_eq in Hmod.
      rewrite Hj in *. rewrite Nat2Z.id.
      exact (rows_result_checkpoint_tables df [] df' l Hres j (snd ir) Hnth Hna Hmod).
    + intros r rs -> Hna.
      destruct (translate_text_total G (Str (original_text r)) 0 w)
        as (s & w1 & lt & Htr & Hadd1 & _).
      exists s, w1, lt.
      pose proof (process_row_pending G 0 r (r :: rs) w w1 s Hna Htr) as Hrow.
      change (0 mod 10 =? 0) with true in Hrow. cbv iota in Hrow.
      change (set_translated_summary (r :: rs) 0 (Str (truncate_text s 150)))
        with ({| summary := summary r;
                 translated_summary := Str (truncate_text s 150) |} :: rs) in Hrow.
      set (d := {| summary := summary r;
                   translated_summary := Str (truncate_text s 150) |} :: rs) in *.
      rewrite iterrows_eq in Hrun. simpl in Hrun.
      rewrite (bind_returns _ _ _ _ _ Hrow) in Hrun.
      destruct (process_rows_result G
                  (combine (map Z.of_nat (seq 1 (List.length rs))) rs) d
                  (emit (Sleep 1)
                     (emit (checkpoint_log 0)
                        (emit (ToCsv checkpoint_file d)
                           (write_file checkpoint_file (WithTranslation d) w1)))))
        as (df2 & w2 & l2 & Hrun2 & Hadd2 & _).
      rewrite Hrun2 in Hrun. inversion Hrun; subst df2 w2.
      exists (Sleep 1 :: l2). split; [exact Htr|]. split; [exact Hadd1|].
      apply (added_inj w w'); [exact Hadd|].
      unfold added in *. rewrite Hadd2. simpl. rewrite Hadd1.
      now rewrite <- !app_assoc.
Qed.

Lemma checkpoint_trigger_witness :
  let G := module_globals (stub [("Hola mundo", "Hello world")]) (stub []) in
  let df := [{| summary := Str "Hola mundo"; translated_summary := PdNA |}] in
  let w := empty_world canonical_input in
  exists s w1 lt l2,
    translate_text G (Str "Hola mundo") 0 w = (Returns s, w1)
    /\ trace (snd (process_rows G (iterrows df) df w))
       = (lt ++ ToCsv checkpoint_file
                  [{| summary := Str "Hola mundo";
                      translated_summary := Str (truncate_text s 150) |}]
             :: checkpoint_log 0 :: l2)%list.
Proof.
  intros G df w.
  destruct (checkpoint_trigger G) as (_ & _ & Hloop).
  destruct (Hloop df w) as (df' & w' & l & Hrun & Hadd & _ & _ & _ & Hfirst).
  destruct (Hfirst _ _ eq_refl eq_refl) as (s & w1 & lt & l2 & Htr & _ & Hl).
  exists s, w1, lt, l2. split; [exact Htr|].
  rewrite Hrun. simpl. rewrite Hadd. exact Hl.
Defined.

(** On a fresh table of 11 rows: once rows 0 to 9 are processed the
    checkpoint file still holds the table as it was right after row 0;
    row 10 writes the second checkpoint. *)
Example checkpoint_after_ten_rows :
  let G := module_globals (tagging "en:") (stub []) in
  let df := numbered_rows 11 in
  let after n := snd (process_rows G (firstn n (iterrows df)) df
                        (empty_world (WithTranslation df))) in
  files (after 10%nat) checkpoint_file
  = Some (WithTranslation (set_translated_summary df 0 (Str "en:0")))
  /\ List.length (checkpoints (trace (after 10%nat))) = 1%nat
  /\ info_logs (trace (after 11%nat)) = [checkpoint_log 0; checkpoint_log 10]
  /\ files (after 11%nat) checkpoint_file
     = Some (WithTranslation
               (map (fun r => {| summary := summary r;
                                 translated_summary := Str ("en:" ++ py_str (summary r)) |})
                  df)).
Proof. vm_compute. repeat split. Qed.

(** ** The canonical three-row input *)

(** [str()] turns an absent summary into a non-empty text, so the guard
    of [translate_text] does not fire for it. *)
Lemma absent_summary_text (c : cell) :
  isna c = true -> original_text {| summary := c; translated_summary := PdNA |} = py_str c
                   /\ py_str c <> "".
Proof. destruct c; simpl; intros H; try discriminate; split; (reflexivity || discriminate). Qed.

Lemma backoff_loop_first_call
    (G : globals) (text : string) (t : translator) (max_retries attempt : Z)
    (rest : list Z) (w : world) :
  exists r w' l,
    backoff_loop G text t max_retries (attempt :: rest) w = (Returns r, w')
    /\ added w (Translate t text :: l) w'.
Proof.
  destruct (provider_of G t (trace w) text) as [s|e] eqn:Hp.
  - rewrite (backoff_loop_success _ _ _ _ _ _ _ _ Hp).
    exists (Some s), (emit (Translate t text) w), []. now split.
  - destruct (Z.eq_dec attempt (max_retries - 1)) as [Ha|Ha].
    + rewrite (backoff_loop_last_failure _ _ _ _ _ _ _ _ Hp Ha).
      eexists _, _, [_]. split; [reflexivity|].
      unfold added. simpl. now rewrite <- app_assoc.
    + rewrite (backoff_loop_failure _ _ _ _ _ _ _ _ Hp Ha).
      destruct (backoff_loop_total G text t max_retries rest
                  (emit (Sleep (2 ^ attempt))
                     (emit (attempt_log attempt e) (emit (Translate t text) w))))
        as (r & w' & l & Hrun & Hadd & _).
      exists r, w', (attempt_log attempt e :: Sleep (2 ^ attempt) :: l).
      split; [exact Hrun|].
      unfold added in *. rewrite Hadd. simpl. now rewrite <- !app_assoc.
Qed.

Lemma translate_with_backoff_first_call
    (G : globals) (text : string) (t : translator) (w : world) :
  exists s w' l,
    translate_with_backoff G text t 5 w = (Returns s, w')
    /\ added w (Translate t text :: l) w'.
Proof.
  destruct (backoff_loop_first_call G text t 5 0 (map Z.of_nat (seq 1 4)) w)
    as (r & w' & l & Hloop & Hadd).
  unfold translate_with_backoff. change (range 5) with (0 :: map Z.of_nat (seq 1 4)).
  rewrite (bind_returns _ _ _ _ _ Hloop).
  destruct r as [s|]; eexists _, w', l; (split; [reflexivity | exact Hadd]).
Qed.

Lemma translate_text_body_first_call
    (G : globals) (text : string) (index : Z) (w : world) :
  exists s w' l,
    translate_text_body G text index w = (Returns s, w')
    /\ added w (Translate google_translator text :: l) w'.
Proof.
  destruct (translate_with_backoff_first_call G text google_translator w)
    as (s1 & w1 & l1 & Hrun1 & Hadd1).
  unfold translate_text_body. rewrite (bind_returns _ _ _ _ _ Hrun1).
  destruct (startswith s1 "Translation failed").
  - set (warn := Log WARNING ("Google Translate failed for index " ++ of_int index
                              ++ ". Trying MyMemory Translator.")).
    destruct (translate_with_backoff_total G text mymemory_translator 5 (emit warn w1))
      as (s2 & w2 & l2 & Hrun2 & Hadd2 & _).
    exists s2, w2, (l1 ++ warn :: l2)%list. split.
    + unfold bind at 1, log. exact Hrun2.
    + unfold added in *. rewrite Hadd2. simpl. rewrite Hadd1.
      simpl. now rewrite <- !app_assoc.
  - now exists s1, w1, l1.
Qed.

(** Whatever the providers are, the loop body calls the primary provider
    for a pending row whose summary is absent, on the text [str] made of
    the absent value. *)
Lemma absent_summary_is_sent
    (G : globals) (index : Z) (c : cell) (df : list Row) (w : world) :
  isna c = true ->
  exists df1 w1 l,
    process_row G index {| summary := c; translated_summary := PdNA |} df w
    = (Returns df1, w1)
    /\ added w (Translate google_translator (py_str c) :: l) w1.
Proof.
  intros Hna. destruct (absent_summary_text c Hna) as [Htext Hne].
  destruct (translate_text_body_first_call G (py_str c) index w)
    as (s & w0 & l0 & Hbody & Hadd0).
  assert (Htr : translate_text G (Str (py_str c)) index w = (Returns s, w0)).
  { simpl. apply String.eqb_neq in Hne. rewrite Hne.
    unfold translate_text_try. now apply try_except_returns. }
  unfold process_row. simpl isna. cbv iota.
  fold (original_text {| summary := c; translated_summary := PdNA |}).
  rewrite Htext. unfold bind at 1 2. rewrite Htr.
  destruct (index mod 10 =? 0);
    eexists _, _, _; (split; [reflexivity|]);
    unfold added in *; simpl; rewrite Hadd0; simpl;
    rewrite <- !app_assoc; reflexivity.
Qed.

(** C1.  The run on the canonical input: the absent summary of row 2 is
    turned into the text ["nan"] and sent to both providers, five times
    each; its row ends with a failure marker, not the empty string. *)
Theorem canonical_run_sends_absent_summary :
  let G := module_globals (stub [("Hola mundo", "Hello world")]) (stub []) in
  let run := main G (empty_world canonical_input) in
  exists df,
    fst run
    = Returns (df, {| total_articles := 3;
                      successful_translations := 3;
                      failed_translations := 1 |})
    /\ translated_column df
       = [Str "Hello world"; Str ""; Str "Translation failed: 'nan'"]
    /\ translate_calls (trace (snd run))
       = ((google_translator, "Hola mundo")
            :: repeat (google_translator, "nan") 5
            ++ repeat (mymemory_translator, "nan") 5)%list
    /\ sleeps (trace (snd run)) = [1; 1; 1; 2; 4; 8; 1; 2; 4; 8; 1].
Proof. vm_compute. eexists. repeat split. Qed.

(** ** A checkpoint read again (lines 19-21, 72, 79) *)

Lemma read_back_na (v : string) : In v na_values -> read_back (Str v) = NaN.
Proof.
  unfold na_values. intros H. simpl in H.
  repeat (destruct H as [<-|H]; [reflexivity|]). contradiction.
Qed.

Lemma truncate_text_nonempty (text : string) (n : Z) :
  text <> "" -> truncate_text text n <> "".
Proof.
  intros Hne. unfold truncate_text. destruct (len text <=? n); [exact Hne|].
  intros H. apply (f_equal String.length) in H.
  rewrite length_append in H. simpl in H. lia.
Qed.

(** No row read from a CSV file has an empty text to send: an empty
    summary field is read as missing, and [str] makes ["nan"] of it. *)
Lemma original_text_reloaded (r : Row) : original_text (reload_row r) <> "".
Proof.
  unfold original_text, reload_row. simpl summary.
  destruct (summary r) as [s| | |]; try (vm_compute; discriminate).
  unfold read_back, parse_field. simpl csv_field.
  destruct (existsb (String.eqb s) na_values) eqn:E; [vm_compute; discriminate|].
  simpl py_str. apply truncate_text_nonempty.
  intros ->. discriminate.
Qed.

(** A pending row with a text to send: the loop body calls the primary
    provider on that text first. *)
Lemma pending_row_is_sent
    (G : globals) (index : Z) (row : Row) (df : list Row) (w : world) :
  isna (translated_summary row) = true ->
  original_text row <> "" ->
  exists df1 w1 l,
    process_row G index row df w = (Returns df1, w1)
    /\ added w (Translate google_translator (original_text row) :: l) w1.
Proof.
  intros Hna Hne.
  destruct (translate_text_body_first_call G (original_text row) index w)
    as (s & w0 & l0 & Hbody & Hadd0).
  assert (Htr : translate_text G (Str (original_text row)) index w = (Returns s, w0)).
  { simpl. apply String.eqb_neq in Hne. rewrite Hne.
    unfold translate_text_try. now apply try_except_returns. }
  rewrite (process_row_pending G index row df w w0 s Hna Htr).
  destruct (index mod 10 =? 0);
    eexists _, _, _; (split; [reflexivity|]);
    unfold added in *; simpl; rewrite Hadd0; simpl;
    rewrite <- !app_assoc; reflexivity.
Qed.

(** A value that was set when the table was saved, and that [read_csv]
    takes for a missing value, is pending again once the file is read:
    the loop body calls the primary provider for its row again. *)
Lemma reloaded_value_is_sent_again
    (G : globals) (index : Z) (r : Row) (v : string) (df : list Row) (w : world) :
  translated_summary r = Str v ->
  In v na_values ->
  isna (translated_summary r) = false
  /\ isna (translated_summary (reload_row r)) = true
  /\ exists df1 w1 l,
      process_row G index (reload_row r) df w = (Returns df1, w1)
      /\ added w (Translate google_translator (original_text (reload_row r)) :: l) w1.
Proof.
  intros Hv Hin.
  assert (Hna : isna (translated_summary (reload_row r)) = true)
    by (unfold reload_row; simpl; now rewrite Hv, (read_back_na v Hin)).
  split; [now rewrite Hv|]. split; [exact Hna|].
  apply pending_row_is_sent; [exact Hna | apply original_text_reloaded].
Qed.

(** C7.  Resuming re-processes a row that was set when the checkpoint
    was written.  A job of two rows is interrupted after row 0, whose
    summary ["N/D"] the primary provider translated to ["N/A"]: the
    checkpoint written at index 0 holds that value.  [read_csv] takes
    the field [N/A] of the checkpoint for a missing value, so in the
    table the resumed run starts from row 0 is absent again, and the
    resumed loop sends ["N/D"] to the primary provider a second time. *)
Theorem resume_translates_reloaded_row_again :
  let G := module_globals two_rows_stub (stub []) in
  let saved := [{| summary := Str "N/D"; translated_summary := Str "N/A" |};
                {| summary := Str "Hola mundo"; translated_summary := PdNA |}] in
  let first := process_rows G (firstn 1 (iterrows two_rows)) two_rows
                 (empty_world (SummaryOnly [Str "N/D"; Str "Hola mundo"])) in
  let resumed := process_rows G (iterrows (reload saved)) (reload saved)
                   {| trace := []; files := files (snd first) |} in
  translate_calls (trace (snd first)) = [(google_translator, "N/D")]
  /\ files (snd first) checkpoint_file = Some (WithTranslation saved)
  /\ reload saved
     = [{| summary := Str "N/D"; translated_summary := NaN |};
        {| summary := Str "Hola mundo"; translated_summary := NaN |}]
  /\ translate_calls (trace (snd resumed))
     = [(google_translator, "N/D"); (google_translator, "Hola mundo")]
  /\ fst resumed
     = Returns [{| summary := Str "N/D"; translated_summary := Str "N/A" |};
                {| summary := Str "Hola mundo"; translated_summary := Str "Hello world" |}].
Proof. vm_compute. repeat split. Qed.

(** * Further properties of the script *)

(** ** Statistics (lines 99-101) *)

Lemma count_le_length (p : cell -> bool) (df : list Row) :
  0 <= count p df <= Z.of_nat (List.length df).
Proof.
  unfold count. split; [lia|].
  apply Nat2Z.inj_le, filter_length_le.
Qed.

Lemma count_monotone (p q : cell -> bool) (df : list Row) :
  (forall c, p c = true -> q c = true) -> count p df <= count q df.
Proof.
  intros Hpq. unfold count. apply Nat2Z.inj_le.
  induction df as [|r df IH]; simpl; [lia|].
  destruct (p (translated_summary r)) eqn:Hp.
  - rewrite (Hpq _ Hp). simpl. lia.
  - destruct (q (translated_summary r)); simpl; lia.
Qed.

Lemma is_failure_notna (c : cell) : is_failure c = true -> notna c = true.
Proof. now destruct c. Qed.

Lemma count_all (p : cell -> bool) (df : list Row) :
  Forall (fun r => p (translated_summary r) = true) df ->
  count p df = Z.of_nat (List.length df).
Proof.
  intros H. unfold count. f_equal.
  induction H as [|r df Hr _ IH]; simpl; [reflexivity|].
  rewrite Hr. simpl. now rewrite IH.
Qed.

(** X1.  The three counters are ordered: every row counted as failed is
    also counted as successful, since "successful" counts the rows that
    hold any value. *)
Theorem statistics_counts_ordered (df : list Row) :
  0 <= failed_translations (statistics df)
  /\ failed_translations (statistics df) <= successful_translations (statistics df)
  /\ successful_translations (statistics df) <= total_articles (statistics df).
Proof.
  simpl. repeat split.
  - apply count_le_length.
  - apply count_monotone, is_failure_notna.
  - apply count_le_length.
Qed.

(** X2.  The statistics of lines 99-101, taken of the table the row
    loop returns, count every row as successful, whatever the providers
    did to the rows: the successful count equals the total, which is the
    number of rows of the table the loop started from. *)
Theorem completed_run_counts_every_row (G : globals) (df : list Row) (w : world) :
  exists df' w',
    process_rows G (iterrows df) df w = (Returns df', w')
    /\ total_articles (statistics df') = Z.of_nat (List.length df)
    /\ successful_translations (statistics df') = total_articles (statistics df').
Proof.
  destruct (process_rows_result G (iterrows df) df w) as (df' & w' & l & Hrun & _ & Hres).
  apply rows_result_iterrows, row_after_forall in Hres as (Hlen & Hall & _).
  exists df', w'. split; [exact Hrun|]. simpl. split.
  - now rewrite Hlen.
  - apply count_all. eapply Forall_impl; [|exact Hall].
    intros r Hr. unfold notna. now rewrite Hr.
Qed.

(** ** Row alignment (lines 71-75) *)

Lemma row_after_summaries (df df' : list Row) :
  Forall2 row_after df df' -> map summary df' = map summary df.
Proof.
  induction 1 as [|r r' df df' (Hs & _) _ IH]; simpl; [reflexivity|].
  now rewrite Hs, IH.
Qed.

(** X3.  The row loop never touches the source texts: the table it
    returns has the rows of the table it started from, in the same
    order, with the same summaries. *)
Theorem run_keeps_summaries (G : globals) (df : list Row) (w : world) :
  exists df' w',
    process_rows G (iterrows df) df w = (Returns df', w')
    /\ List.length df' = List.length df
    /\ map summary df' = map summary df.
Proof.
  destruct (process_rows_result G (iterrows df) df w) as (df' & w' & l & Hrun & _ & Hres).
  apply rows_result_iterrows in Hres.
  exists df', w'. split; [exact Hrun|]. split.
  - now apply row_after_forall in Hres.
  - now apply row_after_summaries.
Qed.

(** ** A table with nothing left to do (lines 71-90) *)

Lemma process_rows_all_set (G : globals) (it : list (Z * Row)) (df : list Row) (w : world) :
  Forall (fun ir => pending ir = false) it ->
  exists w',
    process_rows G it df w = (Returns df, w')
    /\ added w (repeat (Sleep 1) (List.length it)) w'
    /\ files w' = files w.
Proof.
  intros H. revert w. induction H as [|[index row] rest Hp _ IH]; intros w.
  - exists w. repeat split. apply added_nil.
  - destruct (IH (emit (Sleep 1) w)) as (w' & Hrun & Hadd & Hf).
    exists w'. repeat split.
    + simpl. now rewrite (bind_returns _ _ _ _ _ (process_row_skip G index row df w Hp)).
    + apply (added_trans w (emit (Sleep 1) w) w' [Sleep 1]); [apply added_emit | exact Hadd].
    + exact Hf.
Qed.

(** X4.  On a table in which every row already has a value the loop
    calls no provider, logs nothing, writes no file and returns the
    table as it is; all it does is sleep one second per row. *)
Theorem finished_table_only_sleeps (G : globals) (df : list Row) (w : world) :
  Forall (fun r => isna (translated_summary r) = false) df ->
  exists w',
    process_rows G (iterrows df) df w = (Returns df, w')
    /\ trace w' = (trace w ++ repeat (Sleep 1) (List.length df))%list
    /\ files w' = files w.
Proof.
  intros Hall.
  destruct (process_rows_all_set G (iterrows df) df w) as (w' & Hrun & Hadd & Hf).
  - apply Forall_forall. intros ir Hin.
    apply iterrows_index in Hin as [_ Hin].
    rewrite Forall_forall in Hall. exact (Hall _ Hin).
  - exists w'. repeat split; try assumption.
    rewrite Hadd. do 2 f_equal.
    rewrite iterrows_eq, length_combine, length_map, length_seq. apply Nat.min_id.
Qed.

Lemma finished_table_only_sleeps_witness :
  let G := module_globals (stub []) (stub []) in
  let df := [{| summary := Str "Hola"; translated_summary := Str "Hello" |};
             {| summary := Str "adios";
                translated_summary := Str "Translation failed: down" |}] in
  Forall (fun r => isna (translated_summary r) = false) df
  /\ exists w',
      process_rows G (iterrows df) df (empty_world canonical_input) = (Returns df, w')
      /\ trace w' = [Sleep 1; Sleep 1].
Proof.
  intros G df.
  assert (H : Forall (fun r => isna (translated_summary r) = false) df)
    by (repeat constructor).
  split; [exact H|].
  destruct (finished_table_only_sleeps G df (empty_world canonical_input) H)
    as (w' & Hrun & Htr & _).
  now exists w'.
Defined.

(** ** The cost of retrying (lines 35-44) *)

Lemma total_sleep_app (l1 l2 : list event) :
  total_sleep (l1 ++ l2) = total_sleep l1 + total_sleep l2.
Proof.
  unfold total_sleep. rewrite sleeps_app.
  induction (sleeps l1) as [|n ns IH]; simpl; lia.
Qed.

Lemma calls_to_app (t : translator) (l1 l2 : list event) :
  calls_to t (l1 ++ l2) = (calls_to t l1 + calls_to t l2)%nat.
Proof.
  unfold calls_to. now rewrite translate_calls_app, filter_app, List.length_app.
Qed.

Lemma translator_eqb_refl (t : translator) : translator_eqb t t = true.
Proof. now destruct t. Qed.

Lemma pow2_succ (a : nat) : 2 ^ Z.of_nat (S a) = 2 * 2 ^ Z.of_nat a.
Proof. rewrite Nat2Z.inj_succ. apply Z.pow_succ_r. lia. Qed.

Lemma pow2_pos (a : nat) : 0 < 2 ^ Z.of_nat a.
Proof. apply Z.pow_pos_nonneg; lia. Qed.

(** 1 + 2 + 4 + ... + 2^(k-1) = 2^k - 1, started at [2^a]. *)
Lemma sum_of_powers (a k : nat) :
  fold_right Z.add 0 (map (fun i => 2 ^ Z.of_nat i) (seq a k))
  = 2 ^ Z.of_nat (a + k) - 2 ^ Z.of_nat a.
Proof.
  revert a. induction k as [|k IH]; intros a; simpl.
  - rewrite Nat.add_0_r. lia.
  - rewrite IH. replace (a + S k)%nat with (S a + k)%nat by lia.
    rewrite pow2_succ. lia.
Qed.

Section BackoffCost.

Variable G : globals.
Variables (text : string) (t : translator) (max_retries : Z).

(** Whatever the provider does, the attempts left cost at most one call
    each and the sleeps in between. *)
Lemma backoff_loop_cost (m a : nat) (w : world) :
  Z.of_nat (a + m) = max_retries ->
  exists r w' l,
    backoff_loop G text t max_retries (map Z.of_nat (seq a m)) w = (Returns r, w')
    /\ added w l w'
    /\ (List.length (translate_calls l) <= m)%nat
    /\ 0 <= total_sleep l
    /\ (m = O -> total_sleep l = 0)
    /\ ((1 <= m)%nat -> total_sleep l + 2 ^ Z.of_nat a <= 2 ^ Z.of_nat (a + m - 1)).
Proof.
  revert a w. induction m as [|m IH]; intros a w Ha.
  - exists None, w, []. repeat split; auto using added_nil.
    + unfold total_sleep. simpl. lia.
    + lia.
  - simpl seq. simpl map.
    assert (Hmono : 2 ^ Z.of_nat a <= 2 ^ Z.of_nat (a + S m - 1)).
    { apply Z.pow_le_mono_r; lia. }
    destruct (provider_of G t (trace w) text) as [s|e] eqn:Hp.
    + rewrite (backoff_loop_success G text t max_retries _ _ _ _ Hp).
      exists (Some s), (emit (Translate t text) w), [Translate t text].
      repeat split; simpl; try lia. discriminate.
    + destruct (Z.eq_dec (Z.of_nat a) (max_retries - 1)) as [Hlast|Hlast].
      * rewrite (backoff_loop_last_failure G text t max_retries _ _ _ _ Hp Hlast).
        eexists _, _, [Translate t text; attempt_log (Z.of_nat a) e].
        split; [reflexivity|]. repeat split; simpl; try lia; try discriminate.
        unfold added. simpl. now rewrite <- app_assoc.
      * rewrite (backoff_loop_failure G text t max_retries _ _ _ _ Hp Hlast).
        destruct (IH (S a)
                    (emit (Sleep (2 ^ Z.of_nat a))
                       (emit (attempt_log (Z.of_nat a) e) (emit (Translate t text) w))))
          as (r & w' & l & Hrun & Hadd & Hcalls & Hnon & _ & Hsum); [lia|].
        exists r, w',
          ([Translate t text; attempt_log (Z.of_nat a) e; Sleep (2 ^ Z.of_nat a)] ++ l)%list.
        pose proof (pow2_pos a) as Hpos.
        assert (Hm : (1 <= m)%nat) by lia. specialize (Hsum Hm).
        replace (S a + m - 1)%nat with (a + m)%nat in Hsum by lia.
        rewrite pow2_succ in Hsum.
        split; [exact Hrun|]. split; [|split; [|split; [|split]]].
        -- unfold added in *. rewrite Hadd. simpl. now rewrite <- !app_assoc.
        -- rewrite translate_calls_app, List.length_app. simpl. lia.
        -- rewrite total_sleep_app. unfold total_sleep at 1. simpl. lia.
        -- discriminate.
        -- intros _. rewrite total_sleep_app. unfold total_sleep at 1. simpl.
           replace (a + S m - 1)%nat with (a + m)%nat by lia. lia.
Qed.

(** A provider that fails [d] more times and then answers [s]. *)
Lemma backoff_loop_transient (s : string) (K d m a : nat) (w : world) :
  (forall tr, (calls_to t tr < K)%nat -> exists e, provider_of G t tr text = Raises e) ->
  (forall tr, calls_to t tr = K -> provider_of G t tr text = Returns s) ->
  Z.of_nat (a + m) = max_retries ->
  (d < m)%nat ->
  (calls_to t (trace w) + d)%nat = K ->
  exists w' l,
    backoff_loop G text t max_retries (map Z.of_nat (seq a m)) w = (Returns (Some s), w')
    /\ added w l w'
    /\ translate_calls l = repeat (t, text) (S d)
    /\ sleeps l = map (fun i => 2 ^ Z.of_nat i) (seq a d).
Proof.
  intros Hfail Hok. revert m a w. induction d as [|d IH]; intros m a w Ha Hd Hc.
  - destruct m as [|m]; [lia|]. simpl seq. simpl map.
    rewrite (backoff_loop_success G text t max_retries _ _ _ s); [|apply Hok; lia].
    exists (emit (Translate t text) w), [Translate t text]. now repeat split.
  - destruct m as [|m]; [lia|]. simpl seq. simpl map.
    destruct (Hfail (trace w)) as [e He]; [lia|].
    rewrite (backoff_loop_failure G text t max_retries _ _ _ _ He); [|lia].
    destruct (IH m (S a)
                (emit (Sleep (2 ^ Z.of_nat a))
                   (emit (attempt_log (Z.of_nat a) e) (emit (Translate t text) w))))
      as (w' & l & Hrun & Hadd & Hcalls & Hsl); [lia | lia | |].
    + simpl. rewrite !calls_to_app. unfold calls_to at 2 3 4. simpl.
      rewrite translator_eqb_refl. simpl. lia.
    + exists w',
        ([Translate t text; attempt_log (Z.of_nat a) e; Sleep (2 ^ Z.of_nat a)] ++ l)%list.
      repeat split.
      * exact Hrun.
      * unfold added in *. rewrite Hadd. simpl. now rewrite <- !app_assoc.
      * rewrite translate_calls_app, Hcalls. reflexivity.
      * rewrite sleeps_app, Hsl. reflexivity.
Qed.

End BackoffCost.

Lemma range_seq (n : Z) : range n = map Z.of_nat (seq 0 (Z.to_nat n)).
Proof. reflexivity. Qed.

(** X5.  One call of [translate_with_backoff] costs at most
    [max_retries] provider calls and at most [2 ^ (max_retries - 1) - 1]
    seconds of sleep, whatever the provider does. *)
Theorem translate_with_backoff_cost
    (G : globals) (text : string) (t : translator) (max_retries : Z) (w : world) :
  exists s w' l,
    translate_with_backoff G text t max_retries w = (Returns s, w')
    /\ added w l w'
    /\ Z.of_nat (List.length (translate_calls l)) <= Z.max 0 max_retries
    /\ 0 <= total_sleep l <= Z.max 0 (2 ^ (max_retries - 1) - 1).
Proof.
  destruct (Z.le_gt_cases max_retries 0) as [Hle|Hgt].
  - unfold translate_with_backoff. rewrite (range_nonpos _ Hle).
    exists "Translation failed after maximum retries", w, [].
    repeat split; auto using added_nil; unfold total_sleep; simpl; lia.
  - destruct (backoff_loop_cost G text t max_retries (Z.to_nat max_retries) 0 w)
      as (r & w' & l & Hrun & Hadd & Hcalls & Hnon & _ & Hsum); [simpl; lia|].
    exists (match r with
            | Some s => s
            | None => "Translation failed after maximum retries"
            end), w', l.
    split; [|split; [exact Hadd | split; [lia|]]].
    + unfold translate_with_backoff. rewrite range_seq.
      rewrite (bind_returns _ _ _ _ _ Hrun). now destruct r.
    + split; [exact Hnon|].
      assert (Hm : (1 <= Z.to_nat max_retries)%nat) by lia.
      specialize (Hsum Hm). simpl in Hsum.
      replace (Z.of_nat (Z.to_nat max_retries - 1)) with (max_retries - 1) in Hsum by lia.
      lia.
Qed.

(** X6.  A provider that fails on every call, for any [max_retries >= 1]:
    exactly [max_retries] calls are made, the sleeps between them are
    1, 2, 4, ..., [2 ^ (max_retries - 2)], [2 ^ (max_retries - 1) - 1]
    seconds in all, and the marker of the last error is returned. *)
Theorem always_failing_provider_general
    (G : globals) (text : string) (t : translator) (max_retries : Z) (w : world) :
  (forall tr, exists e, provider_of G t tr text = Raises e) ->
  1 <= max_retries ->
  exists e w' l,
    translate_with_backoff G text t max_retries w
    = (Returns ("Translation failed: " ++ exn_str e), w')
    /\ added w l w'
    /\ translate_calls l = repeat (t, text) (Z.to_nat max_retries)
    /\ sleeps l = map (fun i => 2 ^ Z.of_nat i) (seq 0 (Z.to_nat max_retries - 1))
    /\ total_sleep l = 2 ^ (max_retries - 1) - 1.
Proof.
  intros Hfail Hpos.
  destruct (backoff_loop_all_fail G text t max_retries (Z.to_nat max_retries) 0 w Hfail)
    as (r & w' & l & Hrun & Hadd & Hcalls & Hsl & Hlast); [simpl; lia|].
  destruct (Z.to_nat max_retries) as [|m] eqn:Em; [lia|].
  destruct Hlast as (tr & e & -> & _ & _).
  exists e, w', l. repeat split; try assumption.
  - unfold translate_with_backoff. rewrite range_seq, Em.
    now rewrite (bind_returns _ _ _ _ _ Hrun).
  - unfold total_sleep. rewrite Hsl, sum_of_powers. simpl.
    replace (Z.of_nat (m - 0)) with (max_retries - 1) by lia. lia.
Qed.

Lemma always_failing_provider_general_witness :
  let G := module_globals (always_fails (Exn RequestException "down")) (stub []) in
  (forall tr, exists e, provider_of G google_translator tr "Hola" = Raises e)
  /\ 1 <= 7
  /\ exists e w' l,
      translate_with_backoff G "Hola" google_translator 7 (empty_world canonical_input)
      = (Returns ("Translation failed: " ++ exn_str e), w')
      /\ added (empty_world canonical_input) l w'
      /\ total_sleep l = 63.
Proof.
  intros G.
  assert (H : forall tr, exists e, provider_of G google_translator tr "Hola" = Raises e)
    by (intros tr; now exists (Exn RequestException "down")).
  split; [exact H|]. split; [lia|].
  destruct (always_failing_provider_general G "Hola" google_translator 7
              (empty_world canonical_input) H) as (e & w' & l & Hrun & Hadd & _ & _ & Hsum);
    [lia|].
  now exists e, w', l.
Defined.

(** X7.  A transient failure is retried: when the provider fails its
    next [k] calls and answers [s] on the one after, with
    [k < max_retries], [translate_with_backoff] returns [s] after
    exactly [k + 1] calls and the sleeps 1, 2, ..., [2 ^ (k - 1)]; no
    call is made after the successful one. *)
Theorem transient_failure_is_retried
    (G : globals) (text : string) (t : translator) (max_retries : Z)
    (k : nat) (s : string) (w : world) :
  (forall tr, (calls_to t tr < calls_to t (trace w) + k)%nat ->
              exists e, provider_of G t tr text = Raises e) ->
  (forall tr, calls_to t tr = (calls_to t (trace w) + k)%nat ->
              provider_of G t tr text = Returns s) ->
  Z.of_nat k < max_retries ->
  exists w' l,
    translate_with_backoff G text t max_retries w = (Returns s, w')
    /\ added w l w'
    /\ translate_calls l = repeat (t, text) (S k)
    /\ sleeps l = map (fun i => 2 ^ Z.of_nat i) (seq 0 k).
Proof.
  intros Hfail Hok Hk.
  destruct (backoff_loop_transient G text t max_retries s
              (calls_to t (trace w) + k) k (Z.to_nat max_retries) 0 w Hfail Hok)
    as (w' & l & Hrun & Hadd & Hcalls & Hsl); [simpl; lia | lia | reflexivity |].
  exists w', l. repeat split; try assumption.
  unfold translate_with_backoff. rewrite range_seq.
  now rewrite (bind_returns _ _ _ _ _ Hrun).
Qed.

Lemma transient_failure_is_retried_witness :
  let G := module_globals
             (flaky google_translator 2 (Exn RequestException "timeout") "Hello")
             (stub []) in
  let w := empty_world canonical_input in
  exists w' l,
    translate_with_backoff G "Hola" google_translator 5 w = (Returns "Hello", w')
    /\ added w l w'
    /\ translate_calls l = repeat (google_translator, "Hola") 3
    /\ sleeps l = [1; 2].
Proof.
  intros G w.
  apply (transient_failure_is_retried G "Hola" google_translator 5 2 "Hello" w).
  - intros tr Htr. exists (Exn RequestException "timeout").
    simpl. unfold flaky. apply Nat.ltb_lt in Htr. simpl in Htr. now rewrite Htr.
  - intros tr Htr. simpl. unfold flaky. simpl in Htr. now rewrite Htr.
  - lia.
Defined.

(** ** Primary and fallback (lines 46-54) *)

Lemma translate_text_is_body (G : globals) (text : string) (index : Z) (w : world) :
  text <> "" ->
  translate_text G (Str text) index w = translate_text_body G text index w.
Proof.
  intros Hne. simpl. apply String.eqb_neq in Hne. rewrite Hne.
  destruct (translate_text_body_total G text index w) as (s & w' & l & Hrun & _).
  unfold translate_text_try. now rewrite (try_except_returns _ _ _ _ _ Hrun).
Qed.

Lemma translate_with_backoff_first_success
    (G : globals) (text : string) (t : translator) (w : world) (s : string) :
  provider_of G t (trace w) text = Returns s ->
  translate_with_backoff G text t 5 w = (Returns s, emit (Translate t text) w).
Proof.
  intros Hp. unfold translate_with_backoff.
  change (range 5) with (0 :: map Z.of_nat (seq 1 4)).
  now rewrite (bind_returns _ _ _ _ _ (backoff_loop_success G text t 5 _ _ _ _ Hp)).
Qed.

(** X8.  When the primary provider answers at once with a text that
    does not look like a failure marker, [translate_text] returns that
    text after this single call: no sleep, no log entry, and the
    fallback provider is not contacted. *)
Theorem first_answer_is_returned
    (G : globals) (text : string) (index : Z) (w : world) (s : string) :
  text <> "" ->
  google G (trace w) text = Returns s ->
  startswith s "Translation failed" = false ->
  translate_text G (Str text) index w
  = (Returns s, emit (Translate google_translator text) w).
Proof.
  intros Hne Hp Hs. rewrite (translate_text_is_body _ _ _ _ Hne).
  unfold translate_text_body.
  rewrite (bind_returns _ _ _ _ _
             (translate_with_backoff_first_success G text google_translator w s Hp)).
  now rewrite Hs.
Qed.

Lemma first_answer_is_returned_witness :
  let G := module_globals (stub [("Hola mundo", "Hello world")]) (stub []) in
  let w := empty_world canonical_input in
  "Hola mundo" <> ""
  /\ translate_text G (Str "Hola mundo") 0 w
     = (Returns "Hello world", emit (Translate google_translator "Hola mundo") w).
Proof.
  intros G w. split; [discriminate|].
  apply (first_answer_is_returned G "Hola mundo" 0 w "Hello world");
    [discriminate | reflexivity | reflexivity].
Defined.

(** X9.  When the primary provider answers with a text that starts with
    ["Translation failed"], the answer is taken for a failure marker: it
    is dropped, the warning is logged and the result of [translate_text]
    is whatever the fallback provider produces. *)
Theorem marker_like_answer_goes_to_fallback
    (G : globals) (text : string) (index : Z) (w : world) (s : string) :
  text <> "" ->
  google G (trace w) text = Returns s ->
  startswith s "Translation failed" = true ->
  translate_text G (Str text) index w
  = translate_with_backoff G text mymemory_translator 5
      (emit (fallback_warning index) (emit (Translate google_translator text) w)).
Proof.
  intros Hne Hp Hs. rewrite (translate_text_is_body _ _ _ _ Hne).
  unfold translate_text_body.
  rewrite (bind_returns _ _ _ _ _
             (translate_with_backoff_first_success G text google_translator w s Hp)).
  now rewrite Hs.
Qed.

Lemma marker_like_answer_goes_to_fallback_witness :
  let G := module_globals (stub [("Fallo de traduccion", "Translation failed")])
             (stub [("Fallo de traduccion", "Translation failure")]) in
  let w := empty_world canonical_input in
  "Fallo de traduccion" <> ""
  /\ fst (translate_text G (Str "Fallo de traduccion") 3 w) = Returns "Translation failure"
  /\ translate_calls (trace (snd (translate_text G (Str "Fallo de traduccion") 3 w)))
     = [(google_translator, "Fallo de traduccion");
        (mymemory_translator, "Fallo de traduccion")].
Proof.
  intros G w. split; [discriminate|].
  rewrite (marker_like_answer_goes_to_fallback G "Fallo de traduccion" 3 w
             "Translation failed"); [| discriminate | reflexivity | reflexivity].
  split; reflexivity.
Defined.

(** X10.  The fallback rescues a row: when every call of the primary
    provider fails and the fallback answers [s], [translate_text]
    returns [s] after five primary calls (sleeps 1, 2, 4, 8), the
    warning with the row index, and one fallback call. *)
Theorem fallback_rescues_row
    (G : globals) (text : string) (index : Z) (w : world) (s : string) :
  text <> "" ->
  (forall tr, exists e, google G tr text = Raises e) ->
  (forall tr, mymemory G tr text = Returns s) ->
  exists w' l1,
    translate_text G (Str text) index w = (Returns s, w')
    /\ added w (l1 ++ [fallback_warning index; Translate mymemory_translator text]) w'
    /\ translate_calls l1 = repeat (google_translator, text) 5
    /\ sleeps l1 = [1; 2; 4; 8].
Proof.
  intros Hne Hfail Hok. rewrite (translate_text_is_body _ _ _ _ Hne).
  destruct (backoff_loop_all_fail G text google_translator 5 5 0 w Hfail eq_refl)
    as (r & w1 & l1 & Hrun & Hadd & Hcalls & Hsl & (tr & e & -> & _ & _)).
  assert (Htwb : translate_with_backoff G text google_translator 5 w
                 = (Returns (failure_marker e), w1)).
  { unfold translate_with_backoff. change (range 5) with (map Z.of_nat (seq 0 5)).
    now rewrite (bind_returns _ _ _ _ _ Hrun). }
  eexists _, l1. split; [|split; [|split; [exact Hcalls | exact Hsl]]].
  - unfold translate_text_body.
    rewrite (bind_returns _ _ _ _ _ Htwb), startswith_failure_marker.
    unfold bind at 1, log. fold (fallback_warning index).
    apply translate_with_backoff_first_success. apply Hok.
  - unfold added in *. simpl. rewrite Hadd. now rewrite <- !app_assoc.
Qed.

Lemma fallback_rescues_row_witness :
  let G := module_globals (always_fails (Exn RequestException "down"))
             (stub [("Hola", "ok")]) in
  let w := empty_world canonical_input in
  "Hola" <> ""
  /\ exists w' l1,
      translate_text G (Str "Hola") 4 w = (Returns "ok", w')
      /\ added w (l1 ++ [fallback_warning 4; Translate mymemory_translator "Hola"]) w'.
Proof.
  intros G w. split; [discriminate|].
  destruct (fallback_rescues_row G "Hola" 4 w "ok") as (w' & l1 & Hrun & Hadd & _).
  - discriminate.
  - intros tr. now exists (Exn RequestException "down").
  - reflexivity.
  - now exists w', l1.
Defined.

Lemma five_attempts_cost (G : globals) (text : string) (t : translator) (w : world) :
  exists s w' l,
    translate_with_backoff G text t 5 w = (Returns s, w')
    /\ added w l w'
    /\ Z.of_nat (List.length (translate_calls l)) <= Z.max 0 5
    /\ 0 <= total_sleep l <= Z.max 0 (2 ^ (5 - 1) - 1).
Proof.
  destruct (backoff_loop_cost G text t 5 5 0 w eq_refl)
    as (r & w' & l & Hrun & Hadd & Hcalls & Hnon & _ & Hsum).
  exists (match r with
          | Some s => s
          | None => "Translation failed after maximum retries"
          end), w', l.
  split; [|split; [exact Hadd | split; [simpl; lia|]]].
  - unfold translate_with_backoff. change (range 5) with (map Z.of_nat (seq 0 5)).
    rewrite (bind_returns _ _ _ _ _ Hrun). now destruct r.
  - assert (Hm : (1 <= 5)%nat) by lia. specialize (Hsum Hm). simpl in Hsum.
    change (Z.max 0 (2 ^ (5 - 1) - 1)) with 15. lia.
Qed.

Lemma one_row_cost (G : globals) (text : cell) (index : Z) (w : world) :
  exists s w' l,
    translate_text G text index w = (Returns s, w')
    /\ added w l w'
    /\ (List.length (translate_calls l) <= 10)%nat
    /\ 0 <= total_sleep l <= 30.
Proof.
  assert (Hnone : exists s w' l,
             ret "" w = (Returns s, w') /\ added w l w'
             /\ (List.length (translate_calls l) <= 10)%nat
             /\ 0 <= total_sleep l <= 30).
  { exists "", w, []. repeat split; auto using added_nil; simpl; try lia;
      unfold total_sleep; simpl; lia. }
  destruct text as [t| | |]; try exact Hnone.
  destruct (String.eqb_spec t "") as [->|Hne]; [exact Hnone|].
  rewrite (translate_text_is_body _ _ _ _ Hne).
  destruct (five_attempts_cost G t google_translator w)
    as (s1 & w1 & l1 & Hrun1 & Hadd1 & Hc1 & Hs1).
  unfold translate_text_body. rewrite (bind_returns _ _ _ _ _ Hrun1).
  change (Z.max 0 5) with 5 in Hc1. change (Z.max 0 (2 ^ (5 - 1) - 1)) with 15 in Hs1.
  destruct (startswith s1 "Translation failed").
  - destruct (five_attempts_cost G t mymemory_translator
                (emit (fallback_warning index) w1))
      as (s2 & w2 & l2 & Hrun2 & Hadd2 & Hc2 & Hs2).
    change (Z.max 0 5) with 5 in Hc2. change (Z.max 0 (2 ^ (5 - 1) - 1)) with 15 in Hs2.
    exists s2, w2, (l1 ++ fallback_warning index :: l2)%list.
    split; [exact Hrun2|]. split; [|split].
    + unfold added in *. rewrite Hadd2. simpl. rewrite Hadd1.
      now rewrite <- !app_assoc.
    + rewrite translate_calls_app, List.length_app. simpl. lia.
    + rewrite total_sleep_app.
      change (total_sleep (fallback_warning index :: l2)) with (total_sleep l2). lia.
  - exists s1, w1, l1. repeat split; try assumption; lia.
Qed.

(** X11.  The worst case of one row: [translate_text] returns a string
    after at most 10 provider calls and at most 30 seconds of sleep,
    whatever the two providers do; for an absent or empty text it makes
    no call and does not sleep. *)
Theorem translate_text_cost (G : globals) (text : cell) (index : Z) (w : world) :
  (exists s w' l,
      translate_text G text index w = (Returns s, w')
      /\ added w l w'
      /\ (List.length (translate_calls l) <= 10)%nat
      /\ 0 <= total_sleep l <= 30)
  /\ (isna text = true \/ text = Str "" ->
      translate_text G text index w = (Returns "", w)).
Proof.
  split; [apply one_row_cost|].
  intros [H| ->]; [now destruct text | reflexivity].
Qed.

(** ** Rows (lines 71-90) *)

(** X12.  The loop body on a pending row whose summary is the empty
    string: the row is stored as the empty string and no provider is
    contacted.  The events of the iteration are exactly these: when the
    index is a multiple of 10, the write of the updated table to the
    checkpoint file and its log entry; then, in either case, the sleep
    of one second. *)
Theorem empty_summary_row
    (G : globals) (index : Z) (c : cell) (df : list Row) (w : world) :
  isna c = true ->
  exists w1,
    process_row G index {| summary := Str ""; translated_summary := c |} df w
    = (Returns (set_translated_summary df index (Str "")), w1)
    /\ added w
         ((if index mod 10 =? 0
           then [ToCsv checkpoint_file (set_translated_summary df index (Str ""));
                 checkpoint_log index]
           else [])
          ++ [Sleep 1])%list w1
    /\ files w1 checkpoint_file
       = (if index mod 10 =? 0
          then Some (WithTranslation (set_translated_summary df index (Str "")))
          else files w checkpoint_file).
Proof.
  intros Hna. unfold process_row. simpl translated_summary. rewrite Hna.
  change (truncate_text (py_str (summary {| summary := Str ""; translated_summary := c |})) 150)
    with "".
  unfold bind at 1 2. simpl translate_text. unfold ret at 1.
  change (truncate_text "" 150) with "".
  destruct (index mod 10 =? 0).
  - eexists. split; [reflexivity|]. split; [|reflexivity].
    unfold added. simpl. now rewrite <- !app_assoc.
  - eexists. split; [reflexivity|]. now split.
Qed.

Lemma empty_summary_row_witness :
  let G := module_globals (stub []) (stub []) in
  let df := [{| summary := Str ""; translated_summary := PdNA |};
             {| summary := Str "Hola"; translated_summary := PdNA |}] in
  let df1 := [{| summary := Str ""; translated_summary := Str "" |};
              {| summary := Str "Hola"; translated_summary := PdNA |}] in
  isna PdNA = true
  /\ exists w1,
      process_row G 0 {| summary := Str ""; translated_summary := PdNA |} df
        (empty_world canonical_input)
      = (Returns df1, w1)
      /\ trace w1 = [ToCsv checkpoint_file df1; checkpoint_log 0; Sleep 1]
      /\ files w1 checkpoint_file = Some (WithTranslation df1).
Proof.
  intros G df df1. split; [reflexivity|].
  destruct (empty_summary_row G 0 PdNA df (empty_world canonical_input) eq_refl)
    as (w1 & Hrun & Hadd & Hfile).
  exists w1. split; [exact Hrun|]. split; [exact Hadd | exact Hfile].
Defined.

Lemma process_row_cost (G : globals) (index : Z) (row : Row) (df : list Row) (w : world) :
  exists df1 w1 l,
    process_row G index row df w = (Returns df1, w1)
    /\ added w l w1
    /\ Z.of_nat (List.length (translate_calls l))
       <= (if isna (translated_summary row) then 10 else 0)
    /\ 1 <= total_sleep l
    /\ total_sleep l <= 1 + (if isna (translated_summary row) then 30 else 0).
Proof.
  destruct (isna (translated_summary row)) eqn:Hna.
  - destruct (one_row_cost G (Str (original_text row)) index w)
      as (s & w1 & l & Hrun & Hadd & Hc & Hs).
    unfold process_row. rewrite Hna. fold (original_text row).
    unfold bind at 1. unfold bind at 1. rewrite Hrun.
    set (df1 := set_translated_summary df index (Str (truncate_text s 150))).
    destruct (index mod 10 =? 0).
    + exists df1, (emit (Sleep 1)
                     (emit (checkpoint_log index)
                        (emit (ToCsv checkpoint_file df1)
                           (write_file checkpoint_file (WithTranslation df1) w1)))),
        (l ++ [ToCsv checkpoint_file df1; checkpoint_log index; Sleep 1])%list.
      split; [reflexivity|]. split; [|split; [|split]].
      * unfold added in *. simpl. rewrite Hadd. now rewrite <- !app_assoc.
      * rewrite translate_calls_app, List.length_app. simpl. lia.
      * rewrite total_sleep_app. unfold total_sleep at 2. simpl. lia.
      * rewrite total_sleep_app. unfold total_sleep at 2. simpl. lia.
    + exists df1, (emit (Sleep 1) w1), (l ++ [Sleep 1])%list.
      split; [reflexivity|]. split; [|split; [|split]].
      * unfold added in *. simpl. rewrite Hadd. now rewrite <- !app_assoc.
      * rewrite translate_calls_app, List.length_app. simpl. lia.
      * rewrite total_sleep_app. unfold total_sleep at 2. simpl. lia.
      * rewrite total_sleep_app. unfold total_sleep at 2. simpl. lia.
  - exists df, (emit (Sleep 1) w), [Sleep 1].
    split; [now apply process_row_skip|].
    split; [apply added_emit|]. unfold total_sleep. simpl. lia.
Qed.

Lemma process_rows_cost (G : globals) (it : list (Z * Row)) (df : list Row) (w : world) :
  exists df' w' l,
    process_rows G it df w = (Returns df', w')
    /\ added w l w'
    /\ Z.of_nat (List.length (translate_calls l))
       <= 10 * Z.of_nat (List.length (filter pending it))
    /\ Z.of_nat (List.length it) <= total_sleep l
    /\ total_sleep l
       <= Z.of_nat (List.length it) + 30 * Z.of_nat (List.length (filter pending it)).
Proof.
  revert df w. induction it as [|[index row] rest IH]; intros df w.
  - exists df, w, []. repeat split; auto using added_nil; unfold total_sleep; simpl; lia.
  - destruct (process_row_cost G index row df w)
      as (df1 & w1 & l1 & Hrow & Hadd1 & Hc1 & Hlo1 & Hhi1).
    destruct (IH df1 w1) as (df' & w' & l & Hrun & Hadd & Hc & Hlo & Hhi).
    exists df', w', (l1 ++ l)%list.
    split; [simpl; now rewrite (bind_returns _ _ _ _ _ Hrow)|].
    split; [now apply added_trans with w1|].
    rewrite translate_calls_app, List.length_app, total_sleep_app.
    simpl filter.
    change (pending (index, row)) with (isna (translated_summary row)).
    destruct (isna (translated_summary row)); simpl List.length; lia.
Qed.

Lemma pending_count (df : list Row) (k : nat) :
  List.length (filter pending (combine (map Z.of_nat (seq k (List.length df))) df))
  = List.length (filter (fun r => isna (translated_summary r)) df).
Proof.
  revert k. induction df as [|r df IH]; intros k; simpl; [reflexivity|].
  change (pending (Z.of_nat k, r)) with (isna (translated_summary r)).
  destruct (isna (translated_summary r)); simpl; now rewrite (IH (S k)).
Qed.

Lemma length_iterrows (df : list Row) : List.length (iterrows df) = List.length df.
Proof.
  rewrite iterrows_eq, length_combine, length_map, length_seq. apply Nat.min_id.
Qed.

(** X13.  The cost of a whole pass over a table of [n] rows of which
    [p] are pending: at most [10 * p] provider calls, and between [n]
    and [n + 30 * p] seconds of sleep. *)
Theorem run_cost (G : globals) (df : list Row) (w : world) :
  exists df' w' l,
    process_rows G (iterrows df) df w = (Returns df', w')
    /\ added w l w'
    /\ Z.of_nat (List.length (translate_calls l)) <= 10 * count isna df
    /\ Z.of_nat (List.length df) <= total_sleep l
    /\ total_sleep l <= Z.of_nat (List.length df) + 30 * count isna df.
Proof.
  destruct (process_rows_cost G (iterrows df) df w)
    as (df' & w' & l & Hrun & Hadd & Hc & Hlo & Hhi).
  rewrite length_iterrows in Hlo, Hhi.
  rewrite iterrows_eq, pending_count in Hc, Hhi.
  exists df', w', l. now repeat split.
Qed.

(** ** More on [truncate_text] (lines 62-65) *)

Lemma take_is_prefix (n : nat) (s : string) : exists rest, s = take n s ++ rest.
Proof.
  revert s. induction n as [|n IH]; intros [|c s]; simpl.
  - now exists "".
  - now exists (String c s).
  - now exists "".
  - destruct (IH s) as [rest E]. exists rest. now rewrite <- E.
Qed.

Lemma slice_to_is_prefix (s : string) (n : Z) : exists rest, s = slice_to s n ++ rest.
Proof. unfold slice_to. destruct (0 <=? n); apply take_is_prefix. Qed.

Lemma rsplit_head_is_prefix (s : string) : exists rest, s = rsplit_head s ++ rest.
Proof.
  destruct (has_char space s) eqn:E.
  - destruct (rsplit_head_space s E) as (tail & Hs & _). now exists (String space tail).
  - exists "". now rewrite rsplit_head_no_space, app_empty_r.
Qed.

Lemma append_assoc (a b c : string) : (a ++ b) ++ c = a ++ (b ++ c).
Proof. induction a as [|x a IH]; simpl; [reflexivity | now rewrite IH]. Qed.

(** X14.  [truncate_text] only ever drops a tail of the text: for every
    bound, negative ones included, the result is the text itself or a
    prefix of the text followed by ["..."]. *)
Theorem truncate_text_keeps_a_prefix (text : string) (n : Z) :
  truncate_text text n = text
  \/ exists stem rest, text = stem ++ rest /\ truncate_text text n = stem ++ "...".
Proof.
  destruct (Z.leb_spec (len text) n) as [Hshort|Hlong].
  - left. now apply truncate_text_short.
  - right. rewrite (truncate_text_long _ _ Hlong).
    destruct (slice_to_is_prefix text n) as [r1 E1].
    destruct (rsplit_head_is_prefix (slice_to text n)) as [r2 E2].
    exists (rsplit_head (slice_to text n)), (r2 ++ r1). split; [|reflexivity].
    now rewrite <- append_assoc, <- E2.
Qed.

Lemma truncate_text_length (text : string) (n : Z) :
  0 <= n -> len (truncate_text text n) <= n + 3.
Proof.
  intros Hn. destruct (Z.leb_spec (len text) n) as [Hshort|Hlong].
  - rewrite (truncate_text_short _ _ Hshort). lia.
  - now destruct (truncate_text_cut text n Hn Hlong) as (_ & _ & H & _).
Qed.

(** The positional reading of the loop, for a relation of our choice
    between a row before and after. *)
Lemma rows_result_related (R : Row -> Row -> Prop) :
  (forall r, isna (translated_summary r) = false -> R r r) ->
  (forall r s, isna (translated_summary r) = true ->
               R r {| summary := summary r;
                      translated_summary := Str (truncate_text s 150) |}) ->
  forall (rs pre df' : list Row) (l : list event),
    rows_result (combine (map Z.of_nat (seq (List.length pre) (List.length rs))) rs)
      (pre ++ rs) df' l ->
    exists rs', df' = (pre ++ rs')%list /\ Forall2 R rs rs'.
Proof.
  intros Hskip Hproc. induction rs as [|r rs IH]; intros pre df' l H.
  - inversion H; subst. exists []. split; [reflexivity | constructor].
  - simpl in H. inversion H as [|index row rest df0 df1 df0' l1 l2 Hrow Hrest]; subst.
    assert (Hnext : forall r1 : Row,
               df1 = (pre ++ r1 :: rs)%list -> R r r1 ->
               exists rs', df' = (pre ++ rs')%list /\ Forall2 R (r :: rs) rs').
    { intros r1 -> Hr1.
      replace (pre ++ r1 :: rs)%list with ((pre ++ [r1]) ++ rs)%list in Hrest
        by now rewrite <- app_assoc.
      replace (S (List.length pre)) with (List.length (pre ++ [r1])) in Hrest
        by (rewrite List.length_app; simpl; lia).
      destruct (IH _ _ _ Hrest) as (rs' & -> & Hall).
      exists (r1 :: rs'). split; [now rewrite <- app_assoc | now constructor]. }
    inversion Hrow as [Hna | s lt Hna Hev]; subst.
    + apply (Hnext r eq_refl). now apply Hskip.
    + apply (Hnext _ (set_translated_summary_at pre r rs _)). now apply Hproc.
Qed.

(** X15.  Nothing longer than 153 characters crosses the pipeline: in a
    pass over a table every text sent to a provider, and every value the
    pass stores for a pending row, has at most 153 characters. *)
Theorem pipeline_texts_are_bounded (G : globals) (df : list Row) (w : world) :
  exists df' w' l,
    process_rows G (iterrows df) df w = (Returns df', w')
    /\ added w l w'
    /\ Forall (fun c => len (snd c) <= 153) (translate_calls l)
    /\ Forall2 (fun r r' =>
                  isna (translated_summary r) = true ->
                  exists v, translated_summary r' = Str v /\ len v <= 153)
         df df'.
Proof.
  destruct (process_rows_result G (iterrows df) df w) as (df' & w' & l & Hrun & Hadd & Hres).
  exists df', w', l. repeat split; try assumption.
  - eapply Forall_impl; [|exact (rows_result_calls _ _ _ _ Hres)].
    intros c (ir & _ & _ & ->). apply (truncate_text_length _ 150). lia.
  - rewrite iterrows_eq in Hres.
    destruct (rows_result_related
                (fun r r' => isna (translated_summary r) = true ->
                             exists v, translated_summary r' = Str v /\ len v <= 153))
      with (rs := df) (pre := @nil Row) (df' := df') (l := l) as (rs' & -> & Hall).
    + intros r Hr Hna. congruence.
    + intros r s _ _. eexists. split; [reflexivity|].
      apply (truncate_text_length _ 150). lia.
    + exact Hres.
    + exact Hall.
Qed.

(** Cutting back to the last space never goes behind a space the text
    has inside the bound. *)
Lemma rpartition_after_sep (sep : ascii) (a b : string) :
  exists x y, rpartition sep (a ++ String sep b) = Some (a ++ x, y).
Proof.
  induction a as [|c a (x & y & IH)]; simpl.
  - destruct (rpartition sep b) as [[l r]|].
    + now exists (String sep l), r.
    + rewrite Ascii.eqb_refl. now exists "", b.
  - rewrite IH. now exists x, y.
Qed.

Lemma truncate_text_keeps_up_to_space (a b : string) (n : Z) :
  len a < n ->
  exists y, truncate_text (a ++ String space b) n = a ++ y.
Proof.
  intros Ha. destruct (Z.leb_spec (len (a ++ String space b)) n) as [Hshort|Hlong].
  - rewrite (truncate_text_short _ _ Hshort). now exists (String space b).
  - rewrite (truncate_text_long _ _ Hlong).
    rewrite slice_to_prefix by lia.
    assert (Hcut : exists b', slice_to (String space b) (n - len a) = String space b').
    { unfold slice_to. destruct (Z.leb_spec 0 (n - len a)); [|lia].
      destruct (Z.to_nat (n - len a)) as [|k] eqn:E; [lia|].
      simpl. now eexists. }
    destruct Hcut as [b' ->].
    destruct (rpartition_after_sep space a b') as (x & y & E).
    unfold rsplit_head, rsplit1. rewrite E. simpl.
    exists (x ++ "..."). apply append_assoc.
Qed.

(** X16.  Truncation to 150 characters never hides a failure: whatever
    the error text, the stored form of each of the four markers the
    script produces is still recognised by the statistics. *)
Theorem failure_markers_survive_truncation (e : exn) :
  is_failure (Str (truncate_text ("Translation failed: " ++ exn_str e) 150)) = true
  /\ is_failure (Str (truncate_text ("Network error: " ++ exn_str e) 150)) = true
  /\ is_failure (Str (truncate_text ("Unexpected error: " ++ exn_str e) 150)) = true
  /\ is_failure (Str (truncate_text "Translation failed after maximum retries" 150)) = true.
Proof.
  repeat split.
  - destruct (truncate_text_keeps_up_to_space "Translation failed:" (exn_str e) 150)
      as [y Hy]; [reflexivity|].
    change ("Translation failed:" ++ String space (exn_str e))
      with ("Translation failed: " ++ exn_str e) in Hy.
    rewrite Hy. reflexivity.
  - destruct (truncate_text_keeps_up_to_space "Network error:" (exn_str e) 150)
      as [y Hy]; [reflexivity|].
    change ("Network error:" ++ String space (exn_str e))
      with ("Network error: " ++ exn_str e) in Hy.
    rewrite Hy. reflexivity.
  - destruct (truncate_text_keeps_up_to_space "Unexpected error:" (exn_str e) 150)
      as [y Hy]; [reflexivity|].
    change ("Unexpected error:" ++ String space (exn_str e))
      with ("Unexpected error: " ++ exn_str e) in Hy.
    rewrite Hy. reflexivity.
Qed.

(** ** Files (lines 19-29, 79, 95) *)

(** X17.  With neither a checkpoint nor the input file the script stops
    at once with [FileNotFoundError] for the input file: nothing is
    logged, no provider is called and no file is written. *)
Theorem missing_input_aborts (G : globals) (w : world) :
  files w checkpoint_file = None ->
  files w file_path = None ->
  main G w
  = (Raises (Exn FileNotFoundError
               "[Errno 2] No such file or directory: 'spanish_news_articles_with_ilr7192024.csv'"),
     w).
Proof.
  intros Hc Hi. unfold main, load.
  unfold bind, path_exists, read_csv. now rewrite Hc, Hi.
Qed.

Lemma missing_input_aborts_witness :
  let w := {| trace := []; files := fun _ => None |} in
  files w checkpoint_file = None
  /\ files w file_path = None
  /\ exists e, main (module_globals (stub []) (stub [])) w = (Raises e, w)
              /\ exn_type e = FileNotFoundError.
Proof.
  intros w. split; [reflexivity|]. split; [reflexivity|].
  eexists. split.
  - apply (missing_input_aborts (module_globals (stub []) (stub [])) w); reflexivity.
  - reflexivity.
Defined.

Section FileBlind.

Variable G : globals.

Lemma same_effects_refl {A} (x : result A * world) : same_effects x x.
Proof. now split. Qed.

Lemma file_blind_ret {A} (a : A) : file_blind (ret a).
Proof. intros w w2 H. now split. Qed.

Lemma file_blind_raise {A} (e : exn) : file_blind (@raise A e).
Proof. intros w w2 H. now split. Qed.

Lemma file_blind_bind {A B} (m : M A) (k : A -> M B) :
  file_blind m -> (forall a, file_blind (k a)) -> file_blind (bind m k).
Proof.
  intros Hm Hk w w2 H. unfold bind.
  destruct (Hm w w2 H) as [Hr Ht].
  destruct (m w) as [[a|e] w']; destruct (m w2) as [[a2|e2] w2']; simpl in *;
    try discriminate.
  - inversion Hr; subst. now apply Hk.
  - inversion Hr; subst. now split.
Qed.

Lemma file_blind_try_except {A} (body : M A) (h : exn -> M A) :
  file_blind body -> (forall e, file_blind (h e)) -> file_blind (try_except body h).
Proof.
  intros Hm Hh w w2 H. unfold try_except.
  destruct (Hm w w2 H) as [Hr Ht].
  destruct (body w) as [[a|e] w']; destruct (body w2) as [[a2|e2] w2']; simpl in *;
    try discriminate.
  - inversion Hr; subst. now split.
  - inversion Hr; subst. now apply Hh.
Qed.

Lemma file_blind_log (lv : level) (msg : string) : file_blind (log lv msg).
Proof. intros w w2 H. split; simpl; [reflexivity | now rewrite H]. Qed.

Lemma file_blind_sleep (n : Z) : file_blind (sleep n).
Proof. intros w w2 H. split; simpl; [reflexivity | now rewrite H]. Qed.

Lemma file_blind_to_csv (df : list Row) (p : path) : file_blind (to_csv df p).
Proof. intros w w2 H. split; simpl; [reflexivity | now rewrite H]. Qed.

Lemma file_blind_translate (t : translator) (text : string) :
  file_blind (translate G t text).
Proof. intros w w2 H. split; simpl; now rewrite H. Qed.

Lemma file_blind_backoff_loop (text : string) (t : translator) (max_retries : Z)
    (attempts : list Z) :
  file_blind (backoff_loop G text t max_retries attempts).
Proof.
  induction attempts as [|attempt rest IH]; simpl; [apply file_blind_ret|].
  apply file_blind_bind.
  - apply file_blind_try_except.
    + apply file_blind_bind; [apply file_blind_translate|].
      intros r. apply file_blind_ret.
    + intros e. apply file_blind_bind; [apply file_blind_log|]. intros _.
      destruct (attempt =? max_retries - 1); [apply file_blind_ret|].
      apply file_blind_bind; [apply file_blind_sleep|]. intros _. apply file_blind_ret.
  - intros [r|]; [apply file_blind_ret | exact IH].
Qed.

Lemma file_blind_translate_with_backoff (text : string) (t : translator) (max_retries : Z) :
  file_blind (translate_with_backoff G text t max_retries).
Proof.
  apply file_blind_bind; [apply file_blind_backoff_loop|].
  intros [s|]; apply file_blind_ret.
Qed.

Lemma file_blind_translate_text (text : cell) (index : Z) :
  file_blind (translate_text G text index).
Proof.
  destruct text as [s| | |]; try apply file_blind_ret.
  simpl. destruct (s =? "")%string; [apply file_blind_ret|].
  apply file_blind_try_except.
  - apply file_blind_bind; [apply file_blind_translate_with_backoff|].
    intros r. destruct (startswith r "Translation failed"); [|apply file_blind_ret].
    apply file_blind_bind; [apply file_blind_log|]. intros _.
    apply file_blind_translate_with_backoff.
  - intros e. unfold translate_text_except.
    destruct (requests_bound G); [|apply file_blind_raise].
    destruct (is_request_exception e);
      (apply file_blind_bind; [apply file_blind_log|]; intros _; apply file_blind_ret).
Qed.

Lemma file_blind_process_row (index : Z) (row : Row) (df : list Row) :
  file_blind (process_row G index row df).
Proof.
  unfold process_row. apply file_blind_bind.
  - destruct (isna (translated_summary row)); [|apply file_blind_ret].
    apply file_blind_bind; [apply file_blind_translate_text|]. intros s.
    apply file_blind_bind; [|intros _; apply file_blind_ret].
    destruct (index mod 10 =? 0); [|apply file_blind_ret].
    apply file_blind_bind; [apply file_blind_to_csv|]. intros _. apply file_blind_log.
  - intros df1. apply file_blind_bind; [apply file_blind_sleep|].
    intros _. apply file_blind_ret.
Qed.

Lemma file_blind_process_rows (it : list (Z * Row)) (df : list Row) :
  file_blind (process_rows G it df).
Proof.
  revert df. induction it as [|[index row] rest IH]; intros df; simpl.
  - apply file_blind_ret.
  - apply file_blind_bind; [apply file_blind_process_row | exact IH].
Qed.

End FileBlind.

Lemma load_resume (w : world) (d : DataFrame) :
  files w checkpoint_file = Some d ->
  load w
  = (Returns (with_translation_column d),
     match d with
     | WithTranslation _ =>
         emit (Log INFO "Resuming from checkpoint: spanish_translation_checkpoint.csv") w
     | SummaryOnly _ =>
         emit (Log INFO "Created 'translated_summary' column")
           (emit (Log INFO "Resuming from checkpoint: spanish_translation_checkpoint.csv") w)
     end).
Proof.
  intros H. unfold load, bind, path_exists, read_csv, log, ret. rewrite H.
  simpl. rewrite H. destruct d; reflexivity.
Qed.

(** X18.  Files are read at startup only.  The row loop reads no file:
    its result and its trace do not depend on what the files hold.  And
    when a checkpoint exists the input file is not read at all: the run
    is the same whether the input file is there or not. *)
Theorem files_are_read_at_startup_only (G : globals) :
  (forall it df, file_blind (process_rows G it df))
  /\ (forall w w2 d,
         trace w = trace w2 ->
         files w checkpoint_file = Some d ->
         files w2 checkpoint_file = Some d ->
         same_effects (main G w) (main G w2)).
Proof.
  split; [apply file_blind_process_rows|].
  intros w w2 d Ht Hc Hc2. unfold main.
  rewrite (bind_returns _ _ _ _ _ (load_resume w d Hc)).
  rewrite (bind_returns _ _ _ _ _ (load_resume w2 d Hc2)).
  set (df := with_translation_column d).
  assert (Hblind : file_blind
            (df' <- process_rows G (iterrows df) df ;;
             to_csv df' output_file_path ;;
             log INFO ("Translation job completed. Results saved to "
                       ++ path_name output_file_path) ;;
             let st := statistics df' in
             log INFO ("Translation completed. Total: " ++ of_int (total_articles st)
                       ++ ", Successful: " ++ of_int (successful_translations st)
                       ++ ", Failed: " ++ of_int (failed_translations st)) ;;
             ret (df', st))).
  { apply file_blind_bind; [apply file_blind_process_rows|].
    intros df'. apply file_blind_bind; [apply file_blind_to_csv|]. intros _.
    apply file_blind_bind; [apply file_blind_log|]. intros _.
    apply file_blind_bind; [apply file_blind_log|]. intros _. apply file_blind_ret. }
  apply Hblind. destruct d; simpl; now rewrite Ht.
Qed.

Lemma files_are_read_at_startup_only_witness :
  let G := module_globals (stub [("gracias", "thanks")]) (stub []) in
  let w2 := {| trace := [];
               files := fun p => match p with
                                 | file_path => Some canonical_input
                                 | _ => files checkpointed_world p
                                 end |} in
  trace checkpointed_world = trace w2
  /\ same_effects (main G checkpointed_world) (main G w2).
Proof.
  intros G w2. split; [reflexivity|].
  destruct (files_are_read_at_startup_only G) as [_ H].
  eapply (H checkpointed_world w2); reflexivity.
Defined.

Lemma csv_writes_app (l1 l2 : list event) :
  csv_writes (l1 ++ l2) = (csv_writes l1 ++ csv_writes l2)%list.
Proof. apply flat_map_app. Qed.

Lemma translation_events_no_writes (text : string) (l : list event) :
  Forall (translation_event text) l -> csv_writes l = [].
Proof.
  induction 1 as [|e l He _ IH]; [reflexivity|].
  destruct e as [t s|[]|n|p d]; simpl in *; try tauto.
Qed.

(** The loop writes the checkpoint file and nothing else, once per
    triggering row. *)
Lemma rows_result_writes (it : list (Z * Row)) (df df' : list Row) (l : list event) :
  rows_result it df df' l ->
  csv_writes l = repeat checkpoint_file (List.length (filter triggers_checkpoint it)).
Proof.
  induction 1 as [|index row rest df df1 df' l1 l Hrow _ IH]; [reflexivity|].
  rewrite csv_writes_app, IH. simpl filter.
  change (triggers_checkpoint (index, row))
    with (isna (translated_summary row) && (index mod 10 =? 0)).
  inversion Hrow as [Hna | s lt Hna Hev]; subst; rewrite Hna; [reflexivity|].
  rewrite !csv_writes_app, (translation_events_no_writes _ _ Hev).
  now destruct (index mod 10 =? 0).
Qed.

Lemma process_row_files
    (G : globals) (index : Z) (row : Row) (df df1 : list Row) (w w1 : world) (p : path) :
  process_row G index row df w = (Returns df1, w1) ->
  path_eqb p checkpoint_file = false ->
  files w1 p = files w p.
Proof.
  intros Hrun Hp. revert Hrun. unfold process_row.
  destruct (isna (translated_summary row)).
  - destruct (translate_text_total G (Str (truncate_text (py_str (summary row)) 150)) index w)
      as (s & w0 & l & Htr & _ & Hf & _).
    unfold bind at 1. unfold bind at 1. rewrite Htr.
    destruct (index mod 10 =? 0); intros Hrun; inversion Hrun; subst; simpl.
    + now rewrite Hp, Hf.
    + now rewrite Hf.
  - intros Hrun. inversion Hrun; subst. reflexivity.
Qed.

Lemma process_rows_files
    (G : globals) (it : list (Z * Row)) (df df' : list Row) (w w' : world) (p : path) :
  process_rows G it df w = (Returns df', w') ->
  path_eqb p checkpoint_file = false ->
  files w' p = files w p.
Proof.
  revert df w. induction it as [|[index row] rest IH]; intros df w Hrun Hp.
  - inversion Hrun; subst. reflexivity.
  - simpl in Hrun.
    destruct (process_row_result G index row df w) as (df1 & w1 & l & Hrow & _).
    rewrite (bind_returns _ _ _ _ _ Hrow) in Hrun.
    rewrite (IH _ _ Hrun Hp). now apply (process_row_files G index row df df1).
Qed.

(** X19.  The row loop writes no file but the checkpoint: every CSV
    write of a pass goes to the checkpoint file, one write per pending
    row whose index is a multiple of 10, and the input file and the
    output file are left as the loop found them. *)
Theorem loop_writes_only_checkpoint (G : globals) (df : list Row) (w : world) :
  exists df' w' l,
    process_rows G (iterrows df) df w = (Returns df', w')
    /\ added w l w'
    /\ csv_writes l
       = repeat checkpoint_file
           (List.length (filter triggers_checkpoint (iterrows df)))
    /\ files w' file_path = files w file_path
    /\ files w' output_file_path = files w output_file_path.
Proof.
  destruct (process_rows_result G (iterrows df) df w) as (df' & w' & l & Hrun & Hadd & Hres).
  exists df', w', l. split; [exact Hrun|]. split; [exact Hadd|].
  split; [exact (rows_result_writes _ _ _ _ Hres)|]. split.
  - exact (process_rows_files G _ _ _ _ _ file_path Hrun eq_refl).
  - exact (process_rows_files G _ _ _ _ _ output_file_path Hrun eq_refl).
Qed.

Lemma multiples_of_ten (m k : nat) :
  Z.of_nat (List.length (filter (fun i => Z.of_nat i mod 10 =? 0) (seq k m)))
  = (Z.of_nat (k + m) + 9) / 10 - (Z.of_nat k + 9) / 10.
Proof.
  revert k. induction m as [|m IH]; intros k.
  - simpl. rewrite Nat.add_0_r. lia.
  - simpl seq. simpl filter.
    replace (k + S m)%nat with (S k + m)%nat by lia.
    destruct (Z.eqb_spec (Z.of_nat k mod 10) 0) as [E|E]; simpl List.length.
    + rewrite Nat2Z.inj_succ, IH.
      assert (H : (Z.of_nat (S k) + 9) / 10 = (Z.of_nat k + 9) / 10 + 1).
      { rewrite Nat2Z.inj_succ.
        pose proof (Z.div_mod (Z.of_nat k) 10) as H1.
        pose proof (Z.div_mod (Z.of_nat k + 9) 10) as H2.
        pose proof (Z.div_mod (Z.succ (Z.of_nat k) + 9) 10) as H3.
        pose proof (Z.mod_pos_bound (Z.of_nat k + 9) 10) as B2.
        pose proof (Z.mod_pos_bound (Z.succ (Z.of_nat k) + 9) 10) as B3.
        lia. }
      lia.
    + rewrite IH.
      assert (H : (Z.of_nat (S k) + 9) / 10 = (Z.of_nat k + 9) / 10).
      { rewrite Nat2Z.inj_succ.
        pose proof (Z.div_mod (Z.of_nat k) 10) as H1.
        pose proof (Z.mod_pos_bound (Z.of_nat k) 10) as B1.
        pose proof (Z.div_mod (Z.of_nat k + 9) 10) as H2.
        pose proof (Z.div_mod (Z.succ (Z.of_nat k) + 9) 10) as H3.
        pose proof (Z.mod_pos_bound (Z.of_nat k + 9) 10) as B2.
        pose proof (Z.mod_pos_bound (Z.succ (Z.of_nat k) + 9) 10) as B3.
        lia. }
      lia.
Qed.

Lemma triggers_all_pending (rs : list Row) (k : nat) :
  Forall (fun r => isna (translated_summary r) = true) rs ->
  List.length (filter triggers_checkpoint
                 (combine (map Z.of_nat (seq k (List.length rs))) rs))
  = List.length (filter (fun i => Z.of_nat i mod 10 =? 0) (seq k (List.length rs))).
Proof.
  intros H. revert k. induction H as [|r rs Hr _ IH]; intros k; simpl; [reflexivity|].
  change (triggers_checkpoint (Z.of_nat k, r))
    with (isna (translated_summary r) && (Z.of_nat k mod 10 =? 0)).
  rewrite Hr. simpl andb.
  destruct (Z.of_nat k mod 10 =? 0); simpl; now rewrite IH.
Qed.

(** X20.  A pass over a table of [n] rows that are all pending, as a
    freshly loaded input is, writes the checkpoint exactly
    [ceil(n / 10)] times, for the rows 0, 10, 20, ..., and writes
    nothing else. *)
Theorem fresh_table_checkpoints (G : globals) (df : list Row) (w : world) :
  Forall (fun r => isna (translated_summary r) = true) df ->
  exists df' w' l,
    process_rows G (iterrows df) df w = (Returns df', w')
    /\ added w l w'
    /\ csv_writes l
       = repeat checkpoint_file (Z.to_nat ((Z.of_nat (List.length df) + 9) / 10)).
Proof.
  intros Hall.
  destruct (process_rows_result G (iterrows df) df w) as (df' & w' & l & Hrun & Hadd & Hres).
  exists df', w', l. split; [exact Hrun|]. split; [exact Hadd|].
  rewrite (rows_result_writes _ _ _ _ Hres). f_equal.
  rewrite iterrows_eq, (triggers_all_pending df 0 Hall).
  apply Nat2Z.inj. rewrite multiples_of_ten.
  assert (0 <= (Z.of_nat (List.length df) + 9) / 10) by (apply Z.div_pos; lia).
  rewrite Z2Nat.id by assumption. rewrite Nat.add_0_l.
  change ((Z.of_nat 0 + 9) / 10) with 0. lia.
Qed.

Lemma fresh_table_checkpoints_witness :
  let G := module_globals (tagging "en:") (stub []) in
  let df := numbered_rows 25 in
  let w := empty_world (WithTranslation df) in
  Forall (fun r => isna (translated_summary r) = true) df
  /\ exists df' w' l,
      process_rows G (iterrows df) df w = (Returns df', w')
      /\ added w l w'
      /\ csv_writes l = [checkpoint_file; checkpoint_file; checkpoint_file].
Proof.
  intros G df w.
  assert (Hall : Forall (fun r => isna (translated_summary r) = true) df)
    by (vm_compute; repeat constructor).
  split; [exact Hall|].
  destruct (fresh_table_checkpoints G df w Hall) as (df' & w' & l & Hrun & Hadd & Hwr).
  exists df', w', l. split; [exact Hrun|]. split; [exact Hadd|].
  rewrite Hwr. reflexivity.
Defined.

Lemma translate_text_cost_witness :
  let G := module_globals (stub []) (stub []) in
  let w := empty_world canonical_input in
  (isna NaN = true \/ NaN = Str "")
  /\ translate_text G NaN 2 w = (Returns "", w).
Proof.
  intros G w. split; [now left|].
  destruct (translate_text_cost G NaN 2 w) as [_ H]. apply H. now left.
Defined.

(** ** How far the checkpoint lags behind (lines 75-80) *)

Lemma process_row_checkpoint_file
    (G : globals) (index : Z) (row : Row) (df df1 : list Row) (w w1 : world) :
  process_row G index row df w = (Returns df1, w1) ->
  files w1 checkpoint_file
  = if isna (translated_summary row) && (index mod 10 =? 0)
    then Some (WithTranslation df1)
    else files w checkpoint_file.
Proof.
  unfold process_row. destruct (isna (translated_summary row)).
  - destruct (translate_text_total G (Str (truncate_text (py_str (summary row)) 150)) index w)
      as (s & w0 & l & Htr & _ & Hf & _).
    unfold bind at 1. unfold bind at 1. rewrite Htr.
    destruct (index mod 10 =? 0); intros Hrun; inversion Hrun; subst; simpl.
    + reflexivity.
    + now rewrite Hf.
  - intros Hrun. inversion Hrun; subst. reflexivity.
Qed.

(** The loop over the rows from position [length pre] on, all pending:
    either no index in that range is a multiple of 10 and the checkpoint
    file is untouched, or the file holds the table as it was right after
    the last such index [j], and fewer than 10 rows follow [j]. *)
Lemma checkpoint_lag (G : globals) (rs pre : list Row) (w : world) :
  Forall (fun r => isna (translated_summary r) = true) rs ->
  exists df' w' rs',
    process_rows G (combine (map Z.of_nat (seq (List.length pre) (List.length rs))) rs)
      (pre ++ rs) w = (Returns df', w')
    /\ df' = (pre ++ rs')%list
    /\ List.length rs' = List.length rs
    /\ (((forall i, (List.length pre <= i < List.length pre + List.length rs)%nat ->
                    Z.of_nat i mod 10 <> 0)
         /\ files w' checkpoint_file = files w checkpoint_file)
        \/ exists j,
            (List.length pre <= j < List.length pre + List.length rs)%nat
            /\ Z.of_nat j mod 10 = 0
            /\ (List.length pre + List.length rs <= j + 10)%nat
            /\ files w' checkpoint_file
               = Some (WithTranslation (firstn (S j) df' ++ skipn (S j) (pre ++ rs)))).
Proof.
  intros Hall. revert pre w. induction Hall as [|r rs Hr _ IH]; intros pre w.
  - exists pre, w, []. rewrite app_nil_r. repeat split.
    left. split; [intros i Hi; simpl in Hi; lia | reflexivity].
  - simpl combine. simpl process_rows.
    destruct (process_row_result G (Z.of_nat (List.length pre)) r (pre ++ r :: rs) w)
      as (df1 & w1 & l1 & Hrow & _ & Hres).
    rewrite (bind_returns _ _ _ _ _ Hrow).
    pose proof (process_row_checkpoint_file _ _ _ _ _ _ _ Hrow) as Hfile.
    rewrite Hr in Hfile. simpl andb in Hfile.
    inversion Hres as [Hna | s lt _ _]; [congruence|]. subst df1. clear Hres H0.
    rewrite set_translated_summary_at in *.
    set (r1 := {| summary := summary r;
                  translated_summary := Str (truncate_text s 150) |}) in *.
    destruct (IH (pre ++ [r1])%list w1) as (df' & w' & rs' & Hrun & Hdf & Hlen & Hlag).
    replace (List.length (pre ++ [r1])) with (S (List.length pre)) in *
      by (rewrite List.length_app; simpl; lia).
    replace ((pre ++ [r1]) ++ rs)%list with (pre ++ r1 :: rs)%list in *
      by now rewrite <- app_assoc.
    exists df', w', (r1 :: rs').
    split; [exact Hrun|]. split; [now rewrite Hdf, <- app_assoc|].
    split; [simpl; now rewrite Hlen|].
    simpl List.length.
    destruct Hlag as [[Hno Hsame] | (j & Hj & Hmod & Hnear & Hck)].
    + destruct (Z.eqb_spec (Z.of_nat (List.length pre) mod 10) 0) as [E|E].
      * right. exists (List.length pre). split; [lia|]. split; [exact E|]. split.
        -- destruct (Nat.le_gt_cases (List.length rs) 9) as [Hle|Hgt]; [lia|].
           exfalso. apply (Hno (List.length pre + 10)%nat); [lia|].
           replace (Z.of_nat (List.length pre + 10))
             with (Z.of_nat (List.length pre) + 1 * 10) by lia.
           rewrite Z.mod_add by lia. exact E.
        -- assert (Hl1 : forall x : Row, List.length (pre ++ [x]) = S (List.length pre))
             by (intros x; rewrite List.length_app; simpl; lia).
           rewrite Hsame, Hfile. do 2 f_equal. rewrite Hdf.
           rewrite firstn_app, Hl1, Nat.sub_diag.
           rewrite firstn_all2 by (rewrite Hl1; lia).
           simpl firstn. rewrite app_nil_r.
           replace (pre ++ r :: rs)%list with ((pre ++ [r]) ++ rs)%list
             by now rewrite <- app_assoc.
           rewrite skipn_app, Hl1, Nat.sub_diag.
           rewrite skipn_all2 by (rewrite Hl1; lia).
           simpl. now rewrite <- app_assoc.
      * left. split.
        -- intros i Hi. destruct (Nat.eq_dec i (List.length pre)) as [->|Hne];
             [exact E | apply Hno; lia].
        -- rewrite Hsame, Hfile. now destruct (Z.eqb_spec (Z.of_nat (List.length pre) mod 10) 0).
    + right. exists j. split; [lia|]. split; [exact Hmod|]. split; [lia|].
      rewrite Hck. do 3 f_equal.
      replace (pre ++ r1 :: rs)%list with ((pre ++ [r1]) ++ rs)%list
        by now rewrite <- app_assoc.
      replace (pre ++ r :: rs)%list with ((pre ++ [r]) ++ rs)%list
        by now rewrite <- app_assoc.
      apply skipn_past; rewrite !List.length_app; simpl; lia.
Qed.

(** X21.  How far the checkpoint lags behind.  After a pass over a
    table of [n >= 1] rows that were all pending, the checkpoint file
    holds the new values of the rows 0 to [j] and the still pending rows
    after [j], where [j] is the last multiple of 10 below [n]: it is at
    most 9 rows behind, and it is not brought up to date when the pass
    ends. *)
Theorem checkpoint_lags_at_most_nine (G : globals) (df : list Row) (w : world) :
  df <> [] ->
  Forall (fun r => isna (translated_summary r) = true) df ->
  exists df' w' j,
    process_rows G (iterrows df) df w = (Returns df', w')
    /\ List.length df' = List.length df
    /\ Z.of_nat j mod 10 = 0
    /\ (j < List.length df <= j + 10)%nat
    /\ files w' checkpoint_file
       = Some (WithTranslation (firstn (S j) df' ++ skipn (S j) df)).
Proof.
  intros Hne Hall.
  destruct (checkpoint_lag G df [] w Hall) as (df' & w' & rs' & Hrun & Hdf & Hlen & Hlag).
  simpl in Hrun, Hdf, Hlag. rewrite <- iterrows_eq in Hrun. subst rs'.
  destruct Hlag as [[Hno _] | (j & Hj & Hmod & Hnear & Hck)].
  - exfalso. destruct df as [|r df]; [congruence|].
    apply (Hno 0%nat); [simpl; lia | reflexivity].
  - exists df', w', j. repeat split; try assumption; lia.
Qed.

Lemma checkpoint_lags_at_most_nine_witness :
  let G := module_globals (tagging "en:") (stub []) in
  let df := numbered_rows 12 in
  df <> []
  /\ exists df' w' j,
      process_rows G (iterrows df) df (empty_world (WithTranslation df)) = (Returns df', w')
      /\ (j < 12 <= j + 10)%nat
      /\ files w' checkpoint_file
         = Some (WithTranslation (firstn (S j) df' ++ skipn (S j) df)).
Proof.
  intros G df. split; [discriminate|].
  destruct (checkpoint_lags_at_most_nine G df (empty_world (WithTranslation df)))
    as (df' & w' & j & Hrun & _ & _ & Hj & Hck).
  - discriminate.
  - repeat constructor.
  - exists df', w', j. repeat split; try assumption; apply Hj.
Defined.

(** ** Small bounds of [truncate_text] (lines 62-65) *)

Lemma len_take_le (n : nat) (s : string) : len (take n s) <= Z.of_nat n.
Proof. unfold len. rewrite length_take. lia. Qed.

(** X22.  Bounds at and below zero.  With the bound 0 every non-empty
    text becomes ["..."].  With a negative bound the ellipsis is always
    appended: the result is a prefix of the text, of at most
    [max 0 (len text + n)] characters, followed by ["..."]; in
    particular the empty text becomes ["..."]. *)
Theorem truncate_text_small_bounds (text : string) (n : Z) :
  (text <> "" -> truncate_text text 0 = "...")
  /\ (n < 0 ->
      exists stem rest,
        text = stem ++ rest
        /\ truncate_text text n = stem ++ "..."
        /\ len stem <= Z.max 0 (len text + n))
  /\ (n < 0 -> truncate_text "" n = "...").
Proof.
  split; [|split].
  - intros Hne. destruct text as [|c s]; [congruence|]. reflexivity.
  - intros Hneg. pose proof (len_nonneg text) as Hlen.
    rewrite truncate_text_long by lia.
    destruct (slice_to_is_prefix text n) as [r1 E1].
    destruct (rsplit_head_is_prefix (slice_to text n)) as [r2 E2].
    exists (rsplit_head (slice_to text n)), (r2 ++ r1). split; [|split].
    + now rewrite <- append_assoc, <- E2.
    + reflexivity.
    + pose proof (length_rsplit_head (slice_to text n)) as Hh.
      assert (Hs : len (slice_to text n) <= Z.max 0 (len text + n)).
      { unfold slice_to. destruct (Z.leb_spec 0 n); [lia|].
        pose proof (len_take_le (String.length text - Z.to_nat (- n)) text).
        unfold len in *. lia. }
      unfold len in *. lia.
  - intros Hneg. unfold truncate_text. change (len "") with 0.
    destruct (Z.leb_spec 0 n); [lia|].
    unfold slice_to. destruct (Z.leb_spec 0 n); [lia|]. reflexivity.
Qed.

Lemma truncate_text_small_bounds_witness :
  "Hola mundo" <> ""
  /\ truncate_text "Hola mundo" 0 = "..."
  /\ -3 < 0
  /\ truncate_text "" (-3) = "...".
Proof.
  destruct (truncate_text_small_bounds "Hola mundo" (-3)) as (H0 & _ & He).
  split; [discriminate|]. split; [apply H0; discriminate|].
  split; [lia|]. apply He. lia.
Defined.
